(** * Content-moderation plugin: decision engine, worker, gate and HTTP API

    A shallow embedding of [server/processor.go], [server/plugin.go] and
    [server/api.go].  Go's [int] and [time.Duration] are integers ([Z]), Go
    strings are [string], [map[string]int] is [gmap string Z] and
    [map[string]struct{}] is [gset string].  Calls to the host ([plugin.API]),
    to the scoring provider ([moderation.Moderator]) and to the store are
    effects: every call is recorded in a chronological trace and its answer is
    given by a host that may look at everything that happened before. *)

From stdpp Require Import gmap strings list fin_maps.
From Stdlib Require Import ZArith.

Local Open Scope Z_scope.

(** ** Data of the host platform that the plugin reads *)

(** [model.Post]: only the fields the plugin touches. *)
Record Post := mkPost {
  Id : string;
  UserId : string;
  ChannelId : string;
  RootId : string;
  Message : string
}.

(** [model.Channel]: only its identifier is read. *)
Record Channel := mkChannel { Channel_Id : string }.

(** A directory group as the web client reads it ([id], [name],
    [display_name]). *)
Record Group := mkGroup {
  group_id : string;
  group_name : string;
  group_display_name : string
}.

(** The one-character string [\n]. *)
Definition newline : string := String (Ascii.ascii_of_nat 10) EmptyString.

(** [moderation.Result]: severity per category. *)
Abbreviation Result := (gmap string Z).

(** ** Effects *)

Inductive LogLevel := LevelDebug | LevelInfo | LevelError.

Inductive LogValue :=
| VString (s : string)
| VInt (z : Z).

Inductive Event :=
| EvSleep (d : Z)
| EvModerateText (text : string)
| EvLog (lvl : LogLevel) (msg : string) (keyPairs : list (string * LogValue))
| EvDeletePost (postID : string)
| EvCreatePost (post : Post)
| EvGetDirectChannel (userID1 userID2 : string)
| EvHasPermissionTo (userID permission : string)
| EvSearchLDAPGroupsByPrefix (prefix : string).

Abbreviation Trace := (list Event).

(** The collaborators of the plugin.  Each answer may depend on the whole
    history, so a host with internal state, or a provider that starts to
    fail, is an instance.  A [inr] answer is the Go [err != nil] case and
    carries the error text. *)
Record Host := mkHost {
  host_ModerateText : Trace -> string -> Result + string;
  host_DeletePost : Trace -> string -> option string;
  host_CreatePost : Trace -> Post -> Post + string;
  host_GetDirectChannel : Trace -> string -> string -> Channel + string;
  host_HasPermissionTo : Trace -> string -> string -> bool;
  host_SearchLDAPGroupsByPrefix : Trace -> string -> list Group + string;
  host_encodeJSON : list Group -> string + string
}.

(** Computations that read and extend the trace. *)
Definition M (A : Type) : Type := Trace -> A * Trace.

#[global] Instance M_ret : MRet M := fun A (a : A) h => (a, h).

#[global] Instance M_bind : MBind M :=
  fun A B (k : A -> M B) (m : M A) h => let (a, h') := m h in k a h'.

(** [call e answer]: perform the call [e]; the answer is computed from the
    history before the call. *)
Definition call {A} (e : Event) (answer : Trace -> A) : M A :=
  fun h => (answer h, h ++ [e]).

Definition emit (e : Event) : M unit := call e (fun _ => tt).

(** What a computation appends to a history. *)
Definition result_of {A} (m : M A) (h : Trace) : A := fst (m h).
Definition trace_of {A} (m : M A) (h : Trace) : Trace := snd (m h).

(** ** Selectors on traces *)

Definition is_delete (e : Event) : bool :=
  match e with EvDeletePost _ => true | _ => false end.

Definition is_create (e : Event) : bool :=
  match e with EvCreatePost _ => true | _ => false end.

Definition is_direct_channel (e : Event) : bool :=
  match e with EvGetDirectChannel _ _ => true | _ => false end.

Definition slept (e : Event) : Z :=
  match e with EvSleep d => d | _ => 0 end.

(** Total duration of the pauses recorded in a trace. *)
Definition total_sleep (t : Trace) : Z := foldr (fun e acc => slept e + acc) 0 t.

(** ** The severity loop shared by both files

    [for _, severity := range result { if severity >= threshold { return true } }
     return false], over the entries in the order the range statement visits
    them. *)
Fixpoint severityLoop (thresholdValue : Z) (entries : list (string * Z)) : bool :=
  match entries with
  | [] => false
  | (_, severity) :: rest =>
      if Z.leb thresholdValue severity then true
      else severityLoop thresholdValue rest
  end.

(** The key pairs appended by [logFlaggedResult]'s loop. *)
Fixpoint flaggedPairs (label : string -> string) (thresholdValue : Z)
    (entries : list (string * Z)) : list (string * LogValue) :=
  match entries with
  | [] => []
  | (category, severity) :: rest =>
      if Z.leb thresholdValue severity
      then (label category, VInt severity) :: flaggedPairs label thresholdValue rest
      else flaggedPairs label thresholdValue rest
  end.

(** Go's error values of the two files: [nil] is [None]. *)
Inductive ModerationError := ErrModerationRejection | ErrModerationUnavailable.

#[global] Instance ModerationError_eq_dec : EqDecision ModerationError.
Proof. solve_decision. Defined.

(** The three verdicts of the specification, read off the returned error. *)
Inductive Verdict := Clear | Violation | Unavailable.

Definition verdict_of (err : option ModerationError) : Verdict :=
  match err with
  | None => Clear
  | Some ErrModerationRejection => Violation
  | Some ErrModerationUnavailable => Unavailable
  end.

(** * server/processor.go *)
Module Processor.

Definition Minute : Z := 60 * 1000 * 1000 * 1000.
Definition Millisecond : Z := 1000 * 1000.

Definition maxProcessingQueueSize : Z := 10000.
Definition postsPerMinuteLimit : Z := 500.

(** [1 / postsPerMinuteLimit * time.Minute]: a constant expression, evaluated
    left to right; both operands of [/] are untyped integer constants, so the
    quotient is the truncated integer quotient. *)
Definition processingInterval : Z := Z.quot 1 postsPerMinuteLimit * Minute.

Definition channelNotificationTemplate : string :=
  "_A post with potentially offensive content was flagged and removed._".

Definition dmNotificationPrefix : string :=
  "_Your post with the following content was flagged and removed:_" +:+
  newline +:+ newline.

(** [fmt.Sprintf(dmNotificationTemplate, s)]: the template ends in [%s]. *)
Definition dmNotification (s : string) : string := dmNotificationPrefix +:+ s.

Definition Error (e : ModerationError) : string :=
  match e with
  | ErrModerationRejection => "potentially inappropriate content detected"
  | ErrModerationUnavailable => "moderation service is not available"
  end.

(** The configuration part of [PostProcessor]; the moderator is the host's
    [host_ModerateText] and the channel [postsCh] is the separate, mutable
    [Chan] below. *)
Record PostProcessor := mkPostProcessor {
  botID : string;
  thresholdValue : Z;
  excludedUsers : gset string;
  excludedChannels : gset string
}.

Definition shouldModerateUser (p : PostProcessor) (userID : string) : bool :=
  if String.eqb userID (botID p) then false
  else if bool_decide (size (excludedUsers p) = 0%nat) then true
  else negb (bool_decide (userID ∈ excludedUsers p)).

Definition shouldModerateChannel (p : PostProcessor) (channelID : string) : bool :=
  if bool_decide (size (excludedChannels p) = 0%nat) then true
  else negb (bool_decide (channelID ∈ excludedChannels p)).

Definition resultSeverityAboveThreshold (p : PostProcessor) (result : Result) : bool :=
  severityLoop (thresholdValue p) (map_to_list result).

Definition logFlaggedResult (p : PostProcessor) (postID : string) (result : Result) : M unit :=
  emit (EvLog LevelInfo "Content was flagged by moderation"
          ([("post_id", VString postID); ("severity_threshold", VInt (thresholdValue p))]
           ++ flaggedPairs (fun category => "computed_severity_" +:+ category)
                (thresholdValue p) (map_to_list result))).

(** The call to the provider runs under a context that expires after
    [moderationTimeout]; an expiry reaches this function as an error of
    [ModerateText], that is, as an [inr] answer. *)
Definition moderatePost (H : Host) (p : PostProcessor) (post : Post)
    : M (option ModerationError) :=
  if negb (shouldModerateUser p (UserId post)) then mret None
  else if negb (shouldModerateChannel p (ChannelId post)) then mret None
  else if String.eqb (Message post) "" then mret None
  else
    r ← call (EvModerateText (Message post))
             (fun h => host_ModerateText H h (Message post));
    match r with
    | inr _ => mret (Some ErrModerationUnavailable)
    | inl result =>
        if resultSeverityAboveThreshold p result
        then logFlaggedResult p (Id post) result;; mret (Some ErrModerationRejection)
        else mret None
    end.

(** *** The queue [postsCh]: a buffered channel of capacity
    [maxProcessingQueueSize] *)
Record Chan := mkChan { buf : list Post; closed : bool }.

Definition newChan : Chan := {| buf := []; closed := false |}.

(** A function either returns or panics. *)
Inductive Completion (A : Type) :=
| Returned (a : A)
| Panicked (r : string).
Arguments Returned {A} a.
Arguments Panicked {A} r.

(** A send that must not block ([select] with a [default] branch): it panics
    on a closed channel, stores the item when there is room, and otherwise
    reports that it would block. *)
Inductive SendOutcome :=
| Sent (ch : Chan)
| WouldBlock
| SendOnClosed.

Definition trySend (ch : Chan) (post : Post) : SendOutcome :=
  if closed ch then SendOnClosed
  else if Z.of_nat (length (buf ch)) <? maxProcessingQueueSize
       then Sent {| buf := buf ch ++ [post]; closed := false |}
       else WouldBlock.

(** [close(p.postsCh)]; closing twice panics. *)
Definition stop (ch : Chan) : Completion Chan :=
  if closed ch then Panicked "close of closed channel"
  else Returned {| buf := buf ch; closed := true |}.

(** The [select] statement of [queuePostForProcessing]. *)
Definition queueSelect (ch : Chan) (post : Post) : M (Completion Chan) :=
  match trySend ch post with
  | Sent ch' => mret (Returned ch')
  | WouldBlock =>
      emit (EvLog LevelError
              "Content moderation unable to analyze post: exceeded maximum post queue size"
              [("post_id", VString (Id post))]);;
      mret (Returned ch)
  | SendOnClosed => mret (Panicked "send on closed channel")
  end.

(** The whole function: the deferred [recover] turns a panic of the body into
    a debug log entry and a normal return. *)
Definition queuePostForProcessing (ch : Chan) (post : Post) : M (Completion Chan) :=
  c ← queueSelect ch post;
  match c with
  | Returned ch' => mret (Returned ch')
  | Panicked r =>
      emit (EvLog LevelDebug "Panic occurred while queueing post for processing"
              [("post_id", VString (Id post)); ("panic", VString r)]);;
      mret (Returned ch)
  end.

(** *** The action executor *)

Definition channelNotice (p : PostProcessor) (post : Post) : Post :=
  {| Id := ""; UserId := botID p; ChannelId := ChannelId post;
     RootId := RootId post; Message := channelNotificationTemplate |}.

Definition directNotice (p : PostProcessor) (dmChannel : Channel) (post : Post) : Post :=
  {| Id := ""; UserId := botID p; ChannelId := Channel_Id dmChannel;
     RootId := ""; Message := dmNotification (Message post) |}.

(** [errors.Wrap(err, msg)]. *)
Definition Wrap (err msg : string) : string := msg +:+ ": " +:+ err.

Definition reportModerationEvent (H : Host) (p : PostProcessor) (post : Post)
    : M (option string) :=
  r ← call (EvCreatePost (channelNotice p post))
           (fun h => host_CreatePost H h (channelNotice p post));
  match r with
  | inr err => mret (Some (Wrap err "failed to post channel notification"))
  | inl _ =>
      d ← call (EvGetDirectChannel (botID p) (UserId post))
               (fun h => host_GetDirectChannel H h (botID p) (UserId post));
      match d with
      | inr err => mret (Some (Wrap err "failed to create DM channel"))
      | inl dmChannel =>
          r' ← call (EvCreatePost (directNotice p dmChannel post))
                    (fun h => host_CreatePost H h (directNotice p dmChannel post));
          match r' with
          | inr err => mret (Some (Wrap err "failed to send DM notification"))
          | inl _ => mret None
          end
      end
  end.

(** *** The worker *)

(** What the worker does after a rejection: delete, then report. *)
Definition takeDown (H : Host) (p : PostProcessor) (post : Post) : M unit :=
  d ← call (EvDeletePost (Id post)) (fun h => host_DeletePost H h (Id post));
  match d with
  | Some err =>
      emit (EvLog LevelError "Failed to delete post flagged by content moderation"
              [("post_id", VString (Id post)); ("err", VString err)])
  | None => mret tt
  end;;
  r ← reportModerationEvent H p post;
  match r with
  | Some err =>
      emit (EvLog LevelError "Failed report content moderation event"
              [("post_id", VString (Id post)); ("err", VString err)])
  | None => mret tt
  end.

(** One iteration of the loop of [start], after the receive. *)
Definition processPost (H : Host) (p : PostProcessor) (post : Post) : M unit :=
  emit (EvSleep processingInterval);;
  err ← moderatePost H p post;
  match err with
  | None => mret tt
  | Some e =>
      if decide (e = ErrModerationUnavailable)
      then emit (EvLog LevelError "Content moderation error"
                   [("err", VString (Error e)); ("post_id", VString (Id post));
                    ("user_id", VString (UserId post))])
      else takeDown H p post
  end.

(** The loop of [start] over the items it receives, oldest first. *)
Fixpoint workerLoop (H : Host) (p : PostProcessor) (items : list Post) : M unit :=
  match items with
  | [] => mret tt
  | post :: rest => processPost H p post;; workerLoop H p rest
  end.

Inductive WorkerState := WorkerReturned | WorkerWaiting.

(** The goroutine of [start] run against a queue that no producer touches
    meanwhile: it receives every buffered item in order; then a closed queue
    makes it return, an open one makes it wait. *)
Definition start (H : Host) (p : PostProcessor) (ch : Chan) : M (WorkerState * Chan) :=
  workerLoop H p (buf ch);;
  mret (if closed ch then WorkerReturned else WorkerWaiting,
        {| buf := []; closed := closed ch |}).

(** [newPostProcessor]; [moderator] tells whether the moderator passed in is
    non-nil.  The channel it makes is returned beside the configuration. *)
Definition newPostProcessor (bot : string) (moderator : bool) (threshold : Z)
    (users channels : gset string) : (PostProcessor * Chan) + ModerationError :=
  if negb moderator then inr ErrModerationUnavailable
  else inl ({| botID := bot; thresholdValue := threshold;
               excludedUsers := users; excludedChannels := channels |},
            newChan).

End Processor.

(** * server/plugin.go *)
Module Plugin.

Definition Second : Z := 1000 * 1000 * 1000.
Definition moderationTimeout : Z := 10 * Second.

Definition Error (e : ModerationError) : string :=
  match e with
  | ErrModerationRejection =>
      "_This post has been redacted by the moderation plugin: potentially inappropriate content detected_"
  | ErrModerationUnavailable =>
      "_This post has been redacted by the moderation plugin: moderation service is not available_"
  end.

(** The fields of [Plugin] that moderation reads: whether [p.moderator] is
    set, the [ModerateAllUsers] flag of the configuration, the threshold and
    the target users. *)
Record Plugin := mkPlugin {
  moderator : bool;
  ModerateAllUsers : bool;
  thresholdValue : Z;
  targetUsers : gset string
}.

Definition shouldModerateUser (p : Plugin) (userID : string) : bool :=
  if ModerateAllUsers p then true
  else bool_decide (userID ∈ targetUsers p).

Definition resultSeverityAboveThreshold (p : Plugin) (result : Result) : bool :=
  severityLoop (thresholdValue p) (map_to_list result).

Definition logFlaggedResult (p : Plugin) (userID : string) (result : Result) : M unit :=
  emit (EvLog LevelInfo "Content was flagged by moderation"
          ([("user_id", VString userID); ("threshold", VInt (thresholdValue p))]
           ++ flaggedPairs (fun category => category)
                (thresholdValue p) (map_to_list result))).

(** The entry point of the gate; the timeout is an error answer of the
    provider, as on the worker path. *)
Definition moderatePost (H : Host) (p : Plugin) (post : Post)
    : M (option ModerationError) :=
  if negb (moderator p) || negb (shouldModerateUser p (UserId post)) then mret None
  else if String.eqb (Message post) "" then mret None
  else
    r ← call (EvModerateText (Message post))
             (fun h => host_ModerateText H h (Message post));
    match r with
    | inr err =>
        emit (EvLog LevelError "Text moderation failed" [("err", VString err)]);;
        mret (Some ErrModerationUnavailable)
    | inl result =>
        if resultSeverityAboveThreshold p result
        then logFlaggedResult p (UserId post) result;; mret (Some ErrModerationRejection)
        else mret None
    end.

Definition withMessage (post : Post) (text : string) : Post :=
  {| Id := Id post; UserId := UserId post; ChannelId := ChannelId post;
     RootId := RootId post; Message := text |}.

(** Both hooks return a post ([None] is Go's [nil]) and a rejection reason. *)
Definition MessageWillBePosted (H : Host) (p : Plugin) (newPost : Post)
    : M (option Post * string) :=
  err ← moderatePost H p newPost;
  match err with
  | Some e => mret (Some (withMessage newPost (Error e)), "")
  | None => mret (None, "")
  end.

Definition MessageWillBeUpdated (H : Host) (p : Plugin) (newPost oldPost : Post)
    : M (option Post * string) :=
  err ← moderatePost H p newPost;
  match err with
  | Some e => mret (Some (withMessage newPost (Error e)), "")
  | None => mret (Some newPost, "")
  end.

(** *** Activation *)

(** The configuration as [initModerator] reads it.  [configuration.go] is not
    among the sources: the answers of its methods [ThresholdValue] and
    [ModerationTargetsList] are fields here. *)
Record configuration := mkConfiguration {
  Enabled : bool;
  ModeratorType : string;
  Endpoint : string;
  APIKey : string;
  ThresholdValue : Z + string;
  ModerationTargetsList : gset string
}.

Definition withModerator (m : bool) (p : Plugin) : Plugin :=
  {| moderator := m; ModerateAllUsers := ModerateAllUsers p;
     thresholdValue := thresholdValue p; targetUsers := targetUsers p |}.

Definition withThreshold (t : Z) (p : Plugin) : Plugin :=
  {| moderator := moderator p; ModerateAllUsers := ModerateAllUsers p;
     thresholdValue := t; targetUsers := targetUsers p |}.

Definition withTargets (u : gset string) (p : Plugin) : Plugin :=
  {| moderator := moderator p; ModerateAllUsers := ModerateAllUsers p;
     thresholdValue := thresholdValue p; targetUsers := u |}.

(** [errors.Wrap(err, msg)]. *)
Definition Wrap (err msg : string) : string := msg +:+ ": " +:+ err.

(** [initModerator]; [azureNew endpoint key] is the error of [azure.New], if
    any.  The result is the plugin as the function leaves it and the error it
    returns. *)
Definition initModerator (azureNew : string -> string -> option string)
    (config : configuration) (p : Plugin) : M (Plugin * option string) :=
  if negb (Enabled config) then
    emit (EvLog LevelInfo "Content moderation is disabled" []);;
    mret (withModerator false p, None)
  else if String.eqb (ModeratorType config) "azure" then
    match azureNew (Endpoint config) (APIKey config) with
    | Some err =>
        emit (EvLog LevelError "failed to create Azure moderator" [("err", VString err)]);;
        mret (p, Some (Wrap err "failed to create Azure moderator"))
    | None =>
        let p1 := withModerator true p in
        emit (EvLog LevelInfo "Azure AI Content Safety moderator initialized" []);;
        match ThresholdValue config with
        | inr err =>
            emit (EvLog LevelError "failed to load moderation threshold"
                    [("err", VString err)]);;
            mret (p1, Some (Wrap err "failed to load moderation threshold"))
        | inl t =>
            mret (withTargets (ModerationTargetsList config) (withThreshold t p1), None)
        end
    end
  else mret (p, Some ("unknown moderator type: " +:+ ModeratorType config)).

(** [OnActivate]; the API client it stores first is not modelled. *)
Definition OnActivate (azureNew : string -> string -> option string)
    (config : configuration) (p : Plugin) : M (Plugin * option string) :=
  r ← initModerator azureNew config p;
  match r.2 with
  | Some err => mret (r.1, Some (Wrap err "failed to initialize moderator"))
  | None => mret (r.1, None)
  end.

End Plugin.

(** * server/api.go *)
Module API.

(** ** The pieces of [net/http], [strings] and [gorilla/mux] the handler uses *)

Definition StatusOK : Z := 200.
Definition StatusBadRequest : Z := 400.
Definition StatusUnauthorized : Z := 401.
Definition StatusMovedPermanently : Z := 301.
Definition StatusNotFound : Z := 404.
Definition StatusMethodNotAllowed : Z := 405.
Definition StatusInternalServerError : Z := 500.

Definition PermissionManageSystem : string := "manage_system".

(** A request: method, path, the [Mattermost-User-ID] header and the [prefix]
    query parameter; [Header.Get] and [Query().Get] give the empty string for
    an absent entry, so absent and empty are one case here. *)
Record Request := mkRequest {
  Method : string;
  Path : string;
  MattermostUserID : string;
  QueryPrefix : string
}.

(** A response writer: the header map still being edited, the status line and
    headers already committed (if any), and the body written so far. *)
Record ResponseWriter := mkResponseWriter {
  Header : gmap string string;
  committed : option (Z * gmap string string);
  body : string
}.

Definition newResponseWriter : ResponseWriter :=
  {| Header := ∅; committed := None; body := "" |}.

Definition status (w : ResponseWriter) : option Z := fst <$> committed w.

(** The [Content-Type] that went out with the status line. *)
Definition sentContentType (w : ResponseWriter) : option string :=
  committed w ≫= fun c => c.2 !! "Content-Type".

Definition SetHeader (k v : string) (w : ResponseWriter) : ResponseWriter :=
  {| Header := <[k:=v]> (Header w); committed := committed w; body := body w |}.

Definition DelHeader (k : string) (w : ResponseWriter) : ResponseWriter :=
  {| Header := delete k (Header w); committed := committed w; body := body w |}.

(** Only the first [WriteHeader] counts. *)
Definition WriteHeader (code : Z) (w : ResponseWriter) : ResponseWriter :=
  match committed w with
  | Some _ => w
  | None => {| Header := Header w; committed := Some (code, Header w); body := body w |}
  end.

(** A write commits status 200 first when nothing was committed. *)
Definition Write (data : string) (w : ResponseWriter) : ResponseWriter :=
  let w' := WriteHeader StatusOK w in
  {| Header := Header w'; committed := committed w'; body := body w' +:+ data |}.

(** [http.Error]. *)
Definition httpError (w : ResponseWriter) (error : string) (code : Z) : ResponseWriter :=
  Write (error +:+ newline)
    (WriteHeader code
       (SetHeader "X-Content-Type-Options" "nosniff"
          (SetHeader "Content-Type" "text/plain; charset=utf-8"
             (DelHeader "Content-Length" w)))).

(** *** [strings.TrimSpace]

    The function removes the leading and the trailing white space runes of a
    string, where white space is what [unicode.IsSpace] says: the six ASCII
    characters below, U+0085 and U+00A0, and U+1680, U+2000 to U+200A,
    U+2028, U+2029, U+202F, U+205F and U+3000.  A string is its UTF-8 bytes;
    a rune counts only in its proper encoding, as the decoder of the language
    reads it from the front and from the back. *)

(** The ASCII white space: tab, line feed, vertical tab, form feed, carriage
    return and space. *)
Definition isSpace (c : Ascii.ascii) : bool :=
  let n := Ascii.nat_of_ascii c in
  ((9 <=? n) && (n <=? 13))%nat || (n =? 32)%nat.

Definition byte (c : Ascii.ascii) : N := Ascii.N_of_ascii c.

(** The two-byte encodings: U+0085 is C2 85 and U+00A0 is C2 A0. *)
Definition isSpace2 (c1 c2 : Ascii.ascii) : bool :=
  (byte c1 =? 0xC2)%N && ((byte c2 =? 0x85)%N || (byte c2 =? 0xA0)%N).

(** The three-byte encodings: U+1680 is E1 9A 80; U+2000 to U+200A are
    E2 80 80 to E2 80 8A; U+2028, U+2029 and U+202F are E2 80 A8, E2 80 A9
    and E2 80 AF; U+205F is E2 81 9F; U+3000 is E3 80 80. *)
Definition isSpace3 (c1 c2 c3 : Ascii.ascii) : bool :=
  ((byte c1 =? 0xE1)%N && (byte c2 =? 0x9A)%N && (byte c3 =? 0x80)%N)
  || ((byte c1 =? 0xE2)%N && (byte c2 =? 0x80)%N
      && (((0x80 <=? byte c3)%N && (byte c3 <=? 0x8A)%N)
          || (byte c3 =? 0xA8)%N || (byte c3 =? 0xA9)%N || (byte c3 =? 0xAF)%N))
  || ((byte c1 =? 0xE2)%N && (byte c2 =? 0x81)%N && (byte c3 =? 0x9F)%N)
  || ((byte c1 =? 0xE3)%N && (byte c2 =? 0x80)%N && (byte c3 =? 0x80)%N).

(** Remove, from the front of the bytes, every group of one, two or three
    bytes that [sp1], [sp2] or [sp3] accepts. *)
Fixpoint strip (sp1 : Ascii.ascii -> bool)
    (sp2 : Ascii.ascii -> Ascii.ascii -> bool)
    (sp3 : Ascii.ascii -> Ascii.ascii -> Ascii.ascii -> bool)
    (l : list Ascii.ascii) : list Ascii.ascii :=
  match l with
  | [] => []
  | c1 :: r1 =>
      if sp1 c1 then strip sp1 sp2 sp3 r1
      else
        match r1 with
        | [] => l
        | c2 :: r2 =>
            if sp2 c1 c2 then strip sp1 sp2 sp3 r2
            else
              match r2 with
              | [] => l
              | c3 :: r3 => if sp3 c1 c2 c3 then strip sp1 sp2 sp3 r3 else l
              end
        end
  end.

Definition trimLeft (l : list Ascii.ascii) : list Ascii.ascii :=
  strip isSpace isSpace2 isSpace3 l.

(** At the end the encodings are read backwards. *)
Definition trimRight (l : list Ascii.ascii) : list Ascii.ascii :=
  rev (strip isSpace (fun c2 c1 => isSpace2 c1 c2)
         (fun c3 c2 c1 => isSpace3 c1 c2 c3) (rev l)).

Definition TrimSpace (s : string) : string :=
  String.string_of_list_ascii
    (trimRight (trimLeft (String.list_ascii_of_string s))).

(** *** The path cleaning of the router

    Before it matches a route, the router of [gorilla/mux] brings the path
    into its canonical form with [cleanPath], which calls [path.Clean] on a
    path that starts with a slash. *)

Definition slash : Ascii.ascii := Ascii.ascii_of_nat 47.

(** The elements of a path: the pieces between the slashes. *)
Fixpoint pathElements (p : string) : list string :=
  match p with
  | EmptyString => [EmptyString]
  | String c rest =>
      match pathElements rest with
      | [] => [String c EmptyString]
      | e :: es =>
          if Ascii.eqb c slash then EmptyString :: e :: es
          else String c e :: es
      end
  end.

Fixpoint joinPath (elems : list string) : string :=
  match elems with
  | [] => EmptyString
  | [e] => e
  | e :: rest => e +:+ "/" +:+ joinPath rest
  end.

(** [path.Clean] on a rooted path, element by element: empty elements and
    [.] are dropped, [..] removes the element before it (and is dropped at
    the root), every other element is kept.  [kept] holds the elements kept
    so far, the last one first. *)
Fixpoint cleanElements (elems kept : list string) : list string :=
  match elems with
  | [] => rev kept
  | e :: rest =>
      if String.eqb e "" || String.eqb e "." then cleanElements rest kept
      else if String.eqb e ".." then cleanElements rest (tail kept)
      else cleanElements rest (e :: kept)
  end.

Definition Clean (p : string) : string :=
  "/" +:+ joinPath (cleanElements (pathElements p) []).

Fixpoint endsWithSlash (p : string) : bool :=
  match p with
  | EmptyString => false
  | String c EmptyString => Ascii.eqb c slash
  | String _ rest => endsWithSlash rest
  end.

(** [cleanPath] of the router: the empty path is the root, a path is made to
    start with a slash, and a trailing slash that [path.Clean] removed is put
    back. *)
Definition cleanPath (p : string) : string :=
  match p with
  | EmptyString => "/"
  | String c _ =>
      let p1 := if Ascii.eqb c slash then p else "/" +:+ p in
      let np := Clean p1 in
      if endsWithSlash p1 && negb (String.eqb np "/") then np +:+ "/" else np
  end.

(** ** The handlers *)

Definition searchLDAPGroups (H : Host) (w : ResponseWriter) (r : Request)
    : M ResponseWriter :=
  let prefix := TrimSpace (QueryPrefix r) in
  if String.eqb prefix "" then mret (httpError w "missing search prefix" StatusBadRequest)
  else
    g ← call (EvSearchLDAPGroupsByPrefix prefix)
             (fun h => host_SearchLDAPGroupsByPrefix H h prefix);
    match g with
    | inr err =>
        emit (EvLog LevelError "failed to search groups" [("error", VString err)]);;
        mret (httpError w "failed to search groups" StatusInternalServerError)
    | inl groups =>
        let w' := SetHeader "Content-Type" "application/json" w in
        match host_encodeJSON H groups with
        | inl json => mret (Write (json +:+ newline) w')
        | inr err =>
            emit (EvLog LevelError "failed to write http response" [("error", VString err)]);;
            mret w'
        end
    end.

(** The router built in [ServeHTTP]: a path that is not in its canonical
    form is answered 301 with the cleaned path as [Location] (the router puts
    the query string of the request behind it, which the request here does
    not carry), and no route is tried.  Otherwise there is one route,
    [GET /api/v1/groups/search]; another method on that path gets 405 and
    another path gets 404. *)
Definition router (H : Host) (w : ResponseWriter) (r : Request) : M ResponseWriter :=
  if negb (String.eqb (cleanPath (Path r)) (Path r)) then
    mret (WriteHeader StatusMovedPermanently
            (SetHeader "Location" (cleanPath (Path r)) w))
  else if String.eqb (Path r) "/api/v1/groups/search" then
    if String.eqb (Method r) "GET" then searchLDAPGroups H w r
    else mret (WriteHeader StatusMethodNotAllowed w)
  else mret (httpError w "404 page not found" StatusNotFound).

Definition ServeHTTP (H : Host) (w : ResponseWriter) (r : Request) : M ResponseWriter :=
  let userID := MattermostUserID r in
  if String.eqb userID "" then mret (httpError w "Not authorized" StatusUnauthorized)
  else
    allowed ← call (EvHasPermissionTo userID PermissionManageSystem)
                   (fun h => host_HasPermissionTo H h userID PermissionManageSystem);
    let w1 := if negb allowed then httpError w "Not authorized" StatusUnauthorized else w in
    router H w1 r.

End API.

(** * webapp: the group settings of the system console *)
Module Webapp.

(** ** Strings of the script language

    Characters are one-byte code units.  [trim] removes the white space of
    the language standard at both ends; which characters count as white
    space is left open, so every statement holds for the standard's set. *)
Section Strings.

Variable isWhite : Ascii.ascii -> bool.

Fixpoint trimStart (s : string) : string :=
  match s with
  | EmptyString => EmptyString
  | String c rest => if isWhite c then trimStart rest else s
  end.

Fixpoint trimEnd (s : string) : string :=
  match s with
  | EmptyString => EmptyString
  | String c rest =>
      match trimEnd rest with
      | EmptyString => if isWhite c then EmptyString else String c EmptyString
      | t => String c t
      end
  end.

Definition trim (s : string) : string := trimEnd (trimStart s).

(** [s.split(sep)] for a one-character separator: never an empty array. *)
Fixpoint split (sep : Ascii.ascii) (s : string) : list string :=
  match s with
  | EmptyString => [EmptyString]
  | String c rest =>
      match split sep rest with
      | [] => [String c EmptyString]
      | piece :: pieces =>
          if Ascii.eqb c sep then EmptyString :: piece :: pieces
          else String c piece :: pieces
      end
  end.

(** [l.join(sep)]. *)
Fixpoint join (sep : string) (l : list string) : string :=
  match l with
  | [] => EmptyString
  | [x] => x
  | x :: rest => x +:+ sep +:+ join sep rest
  end.

Definition comma : Ascii.ascii := Ascii.ascii_of_nat 44.

(** A string is truthy when it is not empty. *)
Definition truthy (s : string) : bool := negb (String.eqb s "").

(** ** The [GroupSettings] component

    The state holds objects [{id}]; they are their ids here.  An absent
    [id] or [value] property reads as the empty string, which the code treats
    the same way. *)

(** [initializeGroups(value)]: the state it sets. *)
Definition initializeGroups (value : string) : list string :=
  if truthy value then
    let groupIds := filter (fun id => truthy id = true) (trim <$> split comma value) in
    if (0 <? length groupIds)%nat then groupIds else []
  else [].

(** [selectedGroups.map((group) => group?.id).filter(Boolean)]; an absent
    group is [None]. *)
Definition selectedIds (selectedGroups : list (option Group)) : list string :=
  filter (fun id => truthy id = true)
    (omap (fun g => group_id <$> g) selectedGroups).

(** [handleChange(selectedGroups)]: the call of [onChange] it makes, if any.
    [hasOnChange] tells whether the property is set; an absent list of groups
    is [None]. *)
Definition handleChange (propsId : string) (hasOnChange : bool)
    (selectedGroups : option (list (option Group))) : option (string * string) :=
  match selectedGroups with
  | None => None
  | Some groups =>
      if negb hasOnChange || negb (truthy propsId) then None
      else Some (propsId, join "," (selectedIds groups))
  end.

(** The component between renders: the [value] property and the state. *)
Record GroupSettings := mkGroupSettings {
  propsValue : string;
  stateGroups : list string
}.

(** The constructor followed by [componentDidMount]. *)
Definition mount (value : string) : GroupSettings :=
  {| propsValue := value; stateGroups := initializeGroups value |}.

(** New properties followed by [componentDidUpdate(prevProps)]. *)
Definition update (c : GroupSettings) (value : string) : GroupSettings :=
  {| propsValue := value;
     stateGroups := if negb (String.eqb (propsValue c) value)
                    then initializeGroups value else stateGroups c |}.

End Strings.

(** ** Fetching the groups that are not loaded (index.ts) *)

(** The loaded groups of the store and the module's set of pending ids. *)
Record Store := mkStore {
  groups : gmap string Group;
  pendingGroupRequests : gset string
}.

(** What the thunk gives back: the [data] it returns, with whether it
    dispatched them, or an exception. *)
Inductive Outcome :=
| Data (data : list Group) (dispatched : bool)
| Thrown.

(** The ids pushed to [missingIds]. *)
Definition missingIds (st : Store) (groupIds : list string) : list string :=
  filter (fun id => groups st !! id = None /\ id ∉ pendingGroupRequests st) groupIds.

(** All requests answered, or one of them rejected. *)
Fixpoint allFulfilled (answers : list (option Group)) : option (list Group) :=
  match answers with
  | [] => Some []
  | None :: _ => None
  | Some g :: rest => cons g <$> allFulfilled rest
  end.

(** [getMissingGroupsByIds(groupIds)]; [getGroup i id] is the answer of the
    [i]-th request, for [id] ([None]: rejected).  The result is the store
    afterwards, the ids requested and the outcome. *)
Definition getMissingGroupsByIds (getGroup : nat -> string -> option Group)
    (st : Store) (groupIds : list string) : Store * list string * Outcome :=
  let missing := missingIds st groupIds in
  if (length missing =? 0)%nat then (st, [], Data [] false)
  else
    let pending := pendingGroupRequests st ∪ list_to_set missing in
    match allFulfilled (imap getGroup missing) with
    | None =>
        ({| groups := groups st; pendingGroupRequests := pending |}, missing, Thrown)
    | Some fetchedGroups =>
        let st' := {| groups := groups st;
                      pendingGroupRequests := pending ∖ list_to_set missing |} in
        if (0 <? length fetchedGroups)%nat
        then (st', missing, Data fetchedGroups true)
        else (st', missing, Data [] false)
    end.

End Webapp.

(** * Vocabulary of the statements *)

#[global] Instance Post_eq_dec : EqDecision Post.
Proof. solve_decision. Defined.

(** The guards of [Processor.moderatePost] let the post through to the
    scoring provider. *)
Definition reaches_provider (p : Processor.PostProcessor) (post : Post) : bool :=
  Processor.shouldModerateUser p (UserId post)
  && Processor.shouldModerateChannel p (ChannelId post)
  && negb (String.eqb (Message post) "").

(** The same for the guards of [Plugin.moderatePost]. *)
Definition gate_reaches_provider (p : Plugin.Plugin) (post : Post) : bool :=
  Plugin.moderator p
  && Plugin.shouldModerateUser p (UserId post)
  && negb (String.eqb (Message post) "").

(** The log entry of the worker for an unavailable provider. *)
Definition unavailableLog (post : Post) : Event :=
  EvLog LevelError "Content moderation error"
    [("err", VString (Processor.Error ErrModerationUnavailable));
     ("post_id", VString (Id post)); ("user_id", VString (UserId post))].

(** The log entries of the worker for a failed deletion and a failed report. *)
Definition deleteLog (post : Post) (answer : option string) : Trace :=
  match answer with
  | Some err =>
      [EvLog LevelError "Failed to delete post flagged by content moderation"
         [("post_id", VString (Id post)); ("err", VString err)]]
  | None => []
  end.

Definition reportLog (post : Post) (msg err : string) : Event :=
  EvLog LevelError "Failed report content moderation event"
    [("post_id", VString (Id post)); ("err", VString (Processor.Wrap err msg))].

(** The log entries of [queuePostForProcessing]. *)
Definition overflowLog (post : Post) : Event :=
  EvLog LevelError
    "Content moderation unable to analyze post: exceeded maximum post queue size"
    [("post_id", VString (Id post))].

Definition recoveredLog (post : Post) : Event :=
  EvLog LevelDebug "Panic occurred while queueing post for processing"
    [("post_id", VString (Id post)); ("panic", VString "send on closed channel")].

(** An event that touches a message or notifies somebody. *)
Definition is_action (e : Event) : bool :=
  is_delete e || is_create e || is_direct_channel e.

(** ** Concrete collaborators used to run the code *)

(** A host on which everything works: the provider scores every text
    [{"hate": 80}], and the directory holds one group. *)
Definition theGroup : Group :=
  {| group_id := "g1"; group_name := "developers"; group_display_name := "Developers" |}.

Definition workingHost : Host :=
  {| host_ModerateText := fun _ _ => inl {["hate" := 80]};
     host_DeletePost := fun _ _ => None;
     host_CreatePost := fun _ q => inl q;
     host_GetDirectChannel := fun _ a b => inl {| Channel_Id := a +:+ "__" +:+ b |};
     host_HasPermissionTo := fun _ _ _ => true;
     host_SearchLDAPGroupsByPrefix := fun _ _ => inl [theGroup];
     host_encodeJSON := fun gs => inl "[{...}]" |}.

(** The provider is down. *)
Definition providerDownHost : Host :=
  {| host_ModerateText := fun _ _ => inr "context deadline exceeded";
     host_DeletePost := host_DeletePost workingHost;
     host_CreatePost := host_CreatePost workingHost;
     host_GetDirectChannel := host_GetDirectChannel workingHost;
     host_HasPermissionTo := host_HasPermissionTo workingHost;
     host_SearchLDAPGroupsByPrefix := host_SearchLDAPGroupsByPrefix workingHost;
     host_encodeJSON := host_encodeJSON workingHost |}.

(** Posting fails (for instance, the channel was archived meanwhile). *)
Definition createFailsHost : Host :=
  {| host_ModerateText := host_ModerateText workingHost;
     host_DeletePost := host_DeletePost workingHost;
     host_CreatePost := fun _ _ => inr "channel is archived";
     host_GetDirectChannel := host_GetDirectChannel workingHost;
     host_HasPermissionTo := host_HasPermissionTo workingHost;
     host_SearchLDAPGroupsByPrefix := host_SearchLDAPGroupsByPrefix workingHost;
     host_encodeJSON := host_encodeJSON workingHost |}.

(** Nobody holds the system-admin permission. *)
Definition noAdminHost : Host :=
  {| host_ModerateText := host_ModerateText workingHost;
     host_DeletePost := host_DeletePost workingHost;
     host_CreatePost := host_CreatePost workingHost;
     host_GetDirectChannel := host_GetDirectChannel workingHost;
     host_HasPermissionTo := fun _ _ _ => false;
     host_SearchLDAPGroupsByPrefix := host_SearchLDAPGroupsByPrefix workingHost;
     host_encodeJSON := host_encodeJSON workingHost |}.

Definition theProcessor : Processor.PostProcessor :=
  {| Processor.botID := "bot"; Processor.thresholdValue := 50;
     Processor.excludedUsers := ∅; Processor.excludedChannels := ∅ |}.

Definition thePlugin : Plugin.Plugin :=
  {| Plugin.moderator := true; Plugin.ModerateAllUsers := true;
     Plugin.thresholdValue := 50; Plugin.targetUsers := ∅ |}.

Definition userPost : Post :=
  {| Id := "p1"; UserId := "alice"; ChannelId := "town-square";
     RootId := "p0"; Message := "some offensive words" |}.

Definition botPost : Post :=
  {| Id := "p2"; UserId := "bot"; ChannelId := "town-square";
     RootId := ""; Message := "a notice of the bot" |}.

(** A group search by a logged-in user who is not a system admin. *)
Definition nonAdminRequest : API.Request :=
  {| API.Method := "GET"; API.Path := "/api/v1/groups/search";
     API.MattermostUserID := "mallory"; API.QueryPrefix := "dev" |}.

(** The events a computation adds to the history it starts from. *)
Definition added_by {A} (m : M A) (h : Trace) : Trace :=
  drop (length h) (trace_of m h).

(** The direct notice for [post] was handed to the host. *)
Definition direct_notice_attempted (p : Processor.PostProcessor) (post : Post)
    (t : Trace) : Prop :=
  exists dmChannel, EvCreatePost (Processor.directNotice p dmChannel post) ∈ t.

(** An open queue filled to its capacity. *)
Definition fullChan : Processor.Chan :=
  {| Processor.buf := replicate (Z.to_nat Processor.maxProcessingQueueSize) userPost;
     Processor.closed := false |}.

(** ** Vocabulary of the further properties *)

Definition is_provider_call (e : Event) : bool :=
  match e with EvModerateText _ => true | _ => false end.

Definition is_log (e : Event) : bool :=
  match e with EvLog _ _ _ => true | _ => false end.

(** The log entry of the worker for a flagged post. *)
Definition flaggedLog (p : Processor.PostProcessor) (post : Post) (result : Result) : Event :=
  EvLog LevelInfo "Content was flagged by moderation"
    ([("post_id", VString (Id post));
      ("severity_threshold", VInt (Processor.thresholdValue p))]
     ++ flaggedPairs (fun category => "computed_severity_" +:+ category)
          (Processor.thresholdValue p) (map_to_list result)).

(** A producer that admits the posts one after the other. *)
Fixpoint queueAll (ch : Processor.Chan) (posts : list Post)
    : M (Processor.Completion Processor.Chan) :=
  match posts with
  | [] => mret (Processor.Returned ch)
  | post :: rest =>
      c ← Processor.queuePostForProcessing ch post;
      match c with
      | Processor.Returned ch' => queueAll ch' rest
      | Processor.Panicked r => mret (Processor.Panicked r)
      end
  end.

(** The capacity as a number of items. *)
Definition capacity : nat := Z.to_nat Processor.maxProcessingQueueSize.

(** A processor that exempts the user [alice] and the channel [off-topic]. *)
Definition exemptingProcessor : Processor.PostProcessor :=
  {| Processor.botID := "bot"; Processor.thresholdValue := 50;
     Processor.excludedUsers := {["alice"]};
     Processor.excludedChannels := {["off-topic"]} |}.

(** A gate that moderates target users only, and has none. *)
Definition untargetedPlugin : Plugin.Plugin :=
  {| Plugin.moderator := true; Plugin.ModerateAllUsers := false;
     Plugin.thresholdValue := 50; Plugin.targetUsers := ∅ |}.

(** Configurations to activate with: disabled; complete; with a threshold
    that cannot be read. *)
Definition disabledConfiguration : Plugin.configuration :=
  {| Plugin.Enabled := false; Plugin.ModeratorType := "azure";
     Plugin.Endpoint := "https://example.test"; Plugin.APIKey := "key";
     Plugin.ThresholdValue := inl 4; Plugin.ModerationTargetsList := {["alice"]} |}.

Definition azureConfiguration : Plugin.configuration :=
  {| Plugin.Enabled := true; Plugin.ModeratorType := "azure";
     Plugin.Endpoint := "https://example.test"; Plugin.APIKey := "key";
     Plugin.ThresholdValue := inl 4; Plugin.ModerationTargetsList := {["alice"]} |}.

Definition badThresholdConfiguration : Plugin.configuration :=
  {| Plugin.Enabled := true; Plugin.ModeratorType := "azure";
     Plugin.Endpoint := "https://example.test"; Plugin.APIKey := "key";
     Plugin.ThresholdValue := inr "invalid syntax";
     Plugin.ModerationTargetsList := {["alice"]} |}.

(** [azure.New] that accepts every endpoint and key. *)
Definition azureNewOk (endpoint key : string) : option string := None.

(** The character [c] occurs in [s]. *)
Fixpoint contains (c : Ascii.ascii) (s : string) : bool :=
  match s with
  | EmptyString => false
  | String d rest => Ascii.eqb d c || contains c rest
  end.

(** Every character of [s] satisfies [f]. *)
Fixpoint all_chars (f : Ascii.ascii -> bool) (s : string) : bool :=
  match s with
  | EmptyString => true
  | String d rest => f d && all_chars f rest
  end.

(** The request gets as far as the store: a user id is given, the route and
    the method match, and the trimmed prefix is not empty. *)
Definition search_runs (r : API.Request) : bool :=
  negb (String.eqb (API.MattermostUserID r) "")
  && String.eqb (API.Path r) "/api/v1/groups/search"
  && String.eqb (API.Method r) "GET"
  && negb (String.eqb (API.TrimSpace (API.QueryPrefix r)) "").

Definition is_search (e : Event) : bool :=
  match e with EvSearchLDAPGroupsByPrefix _ => true | _ => false end.

(** A search request of a system admin, with blanks around the prefix. *)
Definition adminRequest : API.Request :=
  {| API.Method := "GET"; API.Path := "/api/v1/groups/search";
     API.MattermostUserID := "root"; API.QueryPrefix := "  dev " |}.


(** An id as the settings store it: not empty, without a comma, and without
    white space at its ends. *)
Definition clean_id (isWhite : Ascii.ascii -> bool) (id : string) : Prop :=
  id <> "" /\ contains Webapp.comma id = false /\ Webapp.trim isWhite id = id.

(** The component after it was mounted with [value] and then received the
    values [values] one after the other. *)
Definition rendered (isWhite : Ascii.ascii -> bool) (value : string)
    (values : list string) : Webapp.GroupSettings :=
  foldl (Webapp.update isWhite) (Webapp.mount isWhite value) values.

(** A queue that was closed while it was filled to its capacity. *)
Definition fullClosedChan : Processor.Chan :=
  {| Processor.buf := replicate (Z.to_nat Processor.maxProcessingQueueSize) userPost;
     Processor.closed := true |}.

Definition is_error_log (e : Event) : bool :=
  match e with EvLog LevelError _ _ => true | _ => false end.

(** The bytes start with a group that [sp1], [sp2] or [sp3] accepts. *)
Definition starts_space (sp1 : Ascii.ascii -> bool)
    (sp2 : Ascii.ascii -> Ascii.ascii -> bool)
    (sp3 : Ascii.ascii -> Ascii.ascii -> Ascii.ascii -> bool)
    (l : list Ascii.ascii) : bool :=
  match l with
  | [] => false
  | c1 :: r1 =>
      sp1 c1
      || match r1 with
         | [] => false
         | c2 :: r2 =>
             sp2 c1 c2
             || match r2 with
                | [] => false
                | c3 :: _ => sp3 c1 c2 c3
                end
         end
  end.

(** * Theorems *)

Section SeverityLoop.

Variable thr : Z.

Lemma severityLoop_true entries :
  severityLoop thr entries = true <-> exists c v, (c, v) ∈ entries /\ thr <= v.
Proof.
  induction entries as [|[c v] rest IH]; simpl.
  - split; [discriminate|]. intros (c & v & Hin & _). by apply elem_of_nil in Hin.
  - destruct (Z.leb_spec thr v) as [Hle|Hlt].
    + split; [|done]. intros _. exists c, v. split; [left | done].
    + rewrite IH. split.
      * intros (c' & v' & Hin & Hle). exists c', v'. split; [by right | done].
      * intros (c' & v' & Hin & Hle). apply elem_of_cons in Hin as [Heq|Hin].
        -- inversion Heq; subst. lia.
        -- eauto.
Qed.

(** The answer does not depend on the order in which the range statement
    visits the map. *)
Lemma severityLoop_Permutation l1 l2 :
  l1 ≡ₚ l2 -> severityLoop thr l1 = severityLoop thr l2.
Proof.
  intros Hp. apply eq_true_iff_eq. rewrite !severityLoop_true.
  split; intros (c & v & Hin & Hle); exists c, v; split; try done.
  - by rewrite <- Hp.
  - by rewrite Hp.
Qed.

Lemma severityLoop_map (result : Result) :
  severityLoop thr (map_to_list result) = true
  <-> exists c v, result !! c = Some v /\ thr <= v.
Proof.
  rewrite severityLoop_true. split; intros (c & v & Hin & Hle); exists c, v; split; try done.
  - by apply elem_of_map_to_list in Hin.
  - by apply elem_of_map_to_list.
Qed.

End SeverityLoop.

(** ** Running computations *)

Lemma run_ret {A} (a : A) (h : Trace) : (mret a : M A) h = (a, h).
Proof. reflexivity. Qed.

Lemma run_bind {A B} (m : M A) (k : A -> M B) (h : Trace) :
  (m ≫= k) h = k (m h).1 (m h).2.
Proof. unfold mbind, M_bind. by destruct (m h). Qed.

Lemma run_call {A} (e : Event) (answer : Trace -> A) (h : Trace) :
  call e answer h = (answer h, h ++ [e]).
Proof. reflexivity. Qed.

Lemma run_emit (e : Event) (h : Trace) : emit e h = (tt, h ++ [e]).
Proof. reflexivity. Qed.

(** Unfold the monad and normalise the trace. *)
Ltac run :=
  repeat (rewrite ?run_bind, ?run_call, ?run_emit, ?run_ret; simpl);
  rewrite <- ?app_assoc; simpl.

Lemma total_sleep_app (t1 t2 : Trace) :
  total_sleep (t1 ++ t2) = total_sleep t1 + total_sleep t2.
Proof. induction t1 as [|e t1 IH]; simpl; [done | rewrite IH; lia]. Qed.

(** ** The threshold decision *)

(** C1. For every severity score and threshold, on the worker path and on the
    gate path alike, the score is judged a violation exactly when some
    category's value is greater than or equal to the threshold, and it is not
    judged a violation exactly when every category's value is strictly below
    the threshold; the category label plays no role. *)
Theorem violation_iff_some_category_reaches_threshold
    (pp : Processor.PostProcessor) (pl : Plugin.Plugin) (result : Result) :
  (Processor.resultSeverityAboveThreshold pp result = true
     <-> exists category severity,
           result !! category = Some severity /\ Processor.thresholdValue pp <= severity)
  /\ (Processor.resultSeverityAboveThreshold pp result = false
     <-> forall category severity,
           result !! category = Some severity -> severity < Processor.thresholdValue pp)
  /\ (Plugin.resultSeverityAboveThreshold pl result = true
     <-> exists category severity,
           result !! category = Some severity /\ Plugin.thresholdValue pl <= severity)
  /\ (Plugin.resultSeverityAboveThreshold pl result = false
     <-> forall category severity,
           result !! category = Some severity -> severity < Plugin.thresholdValue pl).
Proof.
  assert (Hneg : forall thr,
    severityLoop thr (map_to_list result) = false
    <-> forall c v, result !! c = Some v -> v < thr).
  { intros thr. rewrite <- not_true_iff_false, severityLoop_map. split.
    - intros Hno c v Hc. destruct (Z.lt_ge_cases v thr) as [|Hge]; [done|].
      exfalso. apply Hno. eauto.
    - intros Hall (c & v & Hc & Hle). specialize (Hall c v Hc). lia. }
  unfold Processor.resultSeverityAboveThreshold, Plugin.resultSeverityAboveThreshold.
  repeat split; try apply severityLoop_map; try apply Hneg.
Qed.

(** The verdict of a scored post is read off the threshold decision, on the
    worker path and on the gate. *)
Lemma moderatePost_scored_verdict H p post h result :
  reaches_provider p post = true ->
  host_ModerateText H h (Message post) = inl result ->
  verdict_of (result_of (Processor.moderatePost H p post) h)
  = if Processor.resultSeverityAboveThreshold p result then Violation else Clear.
Proof.
  unfold reaches_provider. rewrite !andb_true_iff, negb_true_iff.
  intros [[Hu Hc] Hm] Hres.
  unfold result_of, Processor.moderatePost. rewrite Hu, Hc, Hm. simpl.
  rewrite run_bind, run_call. cbn [fst snd]. rewrite Hres.
  destruct (Processor.resultSeverityAboveThreshold p result); [|done].
  by rewrite run_bind.
Qed.

Lemma gate_moderatePost_scored_verdict H pl post h result :
  gate_reaches_provider pl post = true ->
  host_ModerateText H h (Message post) = inl result ->
  verdict_of (result_of (Plugin.moderatePost H pl post) h)
  = if Plugin.resultSeverityAboveThreshold pl result then Violation else Clear.
Proof.
  unfold gate_reaches_provider. rewrite !andb_true_iff, negb_true_iff.
  intros [[Hu Hc] Hm] Hres.
  unfold result_of, Plugin.moderatePost. rewrite Hu, Hc, Hm. simpl.
  rewrite run_bind, run_call. cbn [fst snd]. rewrite Hres.
  destruct (Plugin.resultSeverityAboveThreshold pl result); [|done].
  by rewrite run_bind.
Qed.

(** ** Fail-open on an unavailable provider *)

Lemma reaches_provider_guards p post :
  reaches_provider p post = true ->
  Processor.shouldModerateUser p (UserId post) = true
  /\ Processor.shouldModerateChannel p (ChannelId post) = true
  /\ String.eqb (Message post) "" = false.
Proof.
  unfold reaches_provider. rewrite !andb_true_iff, negb_true_iff. tauto.
Qed.

Lemma moderatePost_provider_error H p post h err :
  reaches_provider p post = true ->
  host_ModerateText H h (Message post) = inr err ->
  Processor.moderatePost H p post h
  = (Some ErrModerationUnavailable, h ++ [EvModerateText (Message post)]).
Proof.
  intros (Hu & Hc & Hm)%reaches_provider_guards Herr.
  unfold Processor.moderatePost. rewrite Hu, Hc, Hm. simpl.
  run. by rewrite Herr.
Qed.

(** C2. When the scoring call of a message fails, the decision engine returns
    the Unavailable verdict, and the worker's iteration for that message
    consists of the pause, the failed scoring call and one error log entry:
    nothing is deleted, nothing is posted, no direct channel is opened, and
    the worker goes on with the next item. *)
Theorem scoring_failure_fails_open
    (H : Host) (p : Processor.PostProcessor) (post : Post) (rest : list Post)
    (h : Trace) (err : string) :
  let h1 := h ++ [EvSleep Processor.processingInterval] in
  let added := [EvSleep Processor.processingInterval;
                EvModerateText (Message post); unavailableLog post] in
  reaches_provider p post = true ->
  host_ModerateText H h1 (Message post) = inr err ->
  verdict_of (result_of (Processor.moderatePost H p post) h1) = Unavailable
  /\ Processor.processPost H p post h = (tt, h ++ added)
  /\ Processor.workerLoop H p (post :: rest) h = Processor.workerLoop H p rest (h ++ added)
  /\ Forall (fun e => is_action e = false) added.
Proof.
  intros h1 added Hreach Herr.
  pose proof (moderatePost_provider_error H p post h1 err Hreach Herr) as Hmod.
  assert (Hstep : Processor.processPost H p post h = (tt, h ++ added)).
  { unfold Processor.processPost. rewrite run_bind, run_emit. simpl.
    rewrite run_bind. fold h1. rewrite Hmod. simpl.
    rewrite run_emit. unfold h1, added. by rewrite <- !app_assoc. }
  split; [by unfold result_of; rewrite Hmod|].
  split; [done|]. split.
  - simpl. rewrite run_bind, Hstep. done.
  - unfold added. repeat constructor.
Qed.

(** The theorem applied to a provider that is down. *)
Lemma scoring_failure_fails_open_witness :
  reaches_provider theProcessor userPost = true
  /\ Processor.processPost providerDownHost theProcessor userPost []
     = (tt, [EvSleep Processor.processingInterval;
             EvModerateText (Message userPost); unavailableLog userPost]).
Proof.
  split; [by vm_compute|].
  apply (scoring_failure_fails_open providerDownHost theProcessor userPost []
           [] "context deadline exceeded"); by vm_compute.
Defined.

(** ** The pause of the worker *)

Lemma processPost_total_sleep H p post h :
  total_sleep (trace_of (Processor.processPost H p post) h)
  = total_sleep h + Processor.processingInterval.
Proof.
  unfold trace_of, Processor.processPost, Processor.takeDown,
    Processor.reportModerationEvent, Processor.moderatePost,
    Processor.logFlaggedResult.
  run. repeat (case_match; run); simplify_eq/=;
    rewrite ?total_sleep_app; simpl; lia.
Qed.

Lemma workerLoop_total_sleep H p items h :
  total_sleep (trace_of (Processor.workerLoop H p items) h)
  = total_sleep h + Z.of_nat (length items) * Processor.processingInterval.
Proof.
  revert h. induction items as [|post rest IH]; intros h.
  - unfold trace_of. simpl. lia.
  - unfold trace_of in *. cbn [Processor.workerLoop]. rewrite run_bind.
    rewrite IH. pose proof (processPost_total_sleep H p post h) as Hs.
    unfold trace_of in Hs. rewrite Hs. cbn [length]. lia.
Qed.

(** C3. The interval of the source is not 120 milliseconds: the constant
    [1 / postsPerMinuteLimit * time.Minute] is zero, while one minute divided
    by the limit is 120 milliseconds; so a worker that finds any number of
    items in the queue handles them with pauses that add up to nothing, 501
    items included. *)
Theorem processingInterval_is_zero :
  Processor.processingInterval = 0
  /\ Processor.Minute / Processor.postsPerMinuteLimit = 120 * Processor.Millisecond
  /\ (forall (H : Host) (p : Processor.PostProcessor) (items : list Post),
        total_sleep (trace_of (Processor.workerLoop H p items) []) = 0)
  /\ total_sleep (trace_of (Processor.workerLoop workingHost theProcessor
                              (replicate 501 userPost)) []) = 0.
Proof.
  assert (Hz : Processor.processingInterval = 0) by reflexivity.
  assert (Hall : forall H p items,
             total_sleep (trace_of (Processor.workerLoop H p items) []) = 0).
  { intros. rewrite workerLoop_total_sleep, Hz. simpl. lia. }
  split; [done|]. split; [by vm_compute|]. split; [done | apply Hall].
Qed.

(** ** The group-search endpoint *)

Lemma added_by_run {A} (m : M A) (h l : Trace) (a : A) :
  m h = (a, h ++ l) -> added_by m h = l.
Proof.
  intros Hm. unfold added_by, trace_of. rewrite Hm. simpl.
  by rewrite drop_app_length.
Qed.

(** A request without a user is refused before anything else happens. *)
Lemma ServeHTTP_unauthenticated H w r h :
  API.MattermostUserID r = "" ->
  API.ServeHTTP H w r h
  = (API.httpError w "Not authorized" API.StatusUnauthorized, h).
Proof. intros Hu. unfold API.ServeHTTP. by rewrite Hu. Qed.

(** What a system admin gets on the search route. *)
Lemma ServeHTTP_admin H r h :
  let h1 := h ++ [EvHasPermissionTo (API.MattermostUserID r) API.PermissionManageSystem] in
  API.MattermostUserID r <> "" ->
  host_HasPermissionTo H h (API.MattermostUserID r) API.PermissionManageSystem = true ->
  API.Path r = "/api/v1/groups/search" ->
  API.Method r = "GET" ->
  let prefix := API.TrimSpace (API.QueryPrefix r) in
  let w := (API.ServeHTTP H API.newResponseWriter r h).1 in
  let t := (API.ServeHTTP H API.newResponseWriter r h).2 in
  if String.eqb prefix "" then
    API.status w = Some API.StatusBadRequest /\ t = h1
  else
    match host_SearchLDAPGroupsByPrefix H h1 prefix with
    | inr _ => API.status w = Some API.StatusInternalServerError
    | inl groups =>
        match host_encodeJSON H groups with
        | inl json =>
            API.status w = Some API.StatusOK
            /\ API.body w = json +:+ newline
            /\ API.sentContentType w = Some "application/json"
        | inr _ => API.status w = None
        end
    end.
Proof.
  intros h1 Hu Hperm Hpath Hmeth prefix w t. subst w t.
  unfold API.ServeHTTP. apply String.eqb_neq in Hu. rewrite Hu.
  rewrite run_bind, run_call. simpl. rewrite Hperm. simpl.
  unfold API.router. rewrite Hpath, Hmeth. simpl.
  unfold API.searchLDAPGroups. fold prefix.
  destruct (String.eqb prefix "") eqn:Hp; [done|].
  rewrite run_bind, run_call. simpl. fold h1.
  destruct (host_SearchLDAPGroupsByPrefix H h1 prefix) as [groups|err]; [|done].
  destruct (host_encodeJSON H groups) as [json|err]; done.
Qed.

(** C4. A logged-in user without the system-admin permission asks for groups
    with prefix [dev]: the handler commits status 401 with the text
    [Not authorized], but it does not stop there; the search runs and the
    groups found are written after the refusal. *)
Theorem non_admin_search_is_performed :
  added_by (API.ServeHTTP noAdminHost API.newResponseWriter nonAdminRequest) []
  = [EvHasPermissionTo "mallory" API.PermissionManageSystem;
     EvSearchLDAPGroupsByPrefix "dev"]
  /\ API.status (result_of (API.ServeHTTP noAdminHost API.newResponseWriter nonAdminRequest) [])
     = Some API.StatusUnauthorized
  /\ API.body (result_of (API.ServeHTTP noAdminHost API.newResponseWriter nonAdminRequest) [])
     = "Not authorized" +:+ newline +:+ "[{...}]" +:+ newline.
Proof. by vm_compute. Qed.

(** ** The worker after a rejection *)

(** The complete run of the delete-then-notify sequence, for every behaviour
    of the host. *)
Lemma takeDown_run H p post h :
  let d := host_DeletePost H h (Id post) in
  let h1 := h ++ EvDeletePost (Id post) :: deleteLog post d in
  let cn := Processor.channelNotice p post in
  let h2 := h1 ++ [EvCreatePost cn] in
  let h3 := h2 ++ [EvGetDirectChannel (Processor.botID p) (UserId post)] in
  Processor.takeDown H p post h
  = (tt,
     match host_CreatePost H h1 cn with
     | inr err => h2 ++ [reportLog post "failed to post channel notification" err]
     | inl _ =>
         match host_GetDirectChannel H h2 (Processor.botID p) (UserId post) with
         | inr err => h3 ++ [reportLog post "failed to create DM channel" err]
         | inl dmChannel =>
             let dn := Processor.directNotice p dmChannel post in
             match host_CreatePost H h3 dn with
             | inr err =>
                 h3 ++ [EvCreatePost dn;
                        reportLog post "failed to send DM notification" err]
             | inl _ => h3 ++ [EvCreatePost dn]
             end
         end
     end).
Proof.
  intros d h1 cn h2 h3.
  unfold Processor.takeDown, Processor.reportModerationEvent.
  rewrite run_bind, run_call. cbn [fst snd]. fold d.
  assert (Hdel : forall k : M unit,
    (match d with
     | Some err =>
         emit (EvLog LevelError "Failed to delete post flagged by content moderation"
                 [("post_id", VString (Id post)); ("err", VString err)])
     | None => mret tt
     end ≫= fun _ => k) (h ++ [EvDeletePost (Id post)]) = k h1).
  { intros k. rewrite run_bind. unfold h1.
    destruct d; cbn; by rewrite <- ?app_assoc. }
  rewrite Hdel. rewrite !run_bind, run_call. cbn [fst snd]. fold cn h2.
  destruct (host_CreatePost H h1 cn) as [q|err].
  - rewrite !run_bind, run_call. cbn [fst snd]. fold h3.
    destruct (host_GetDirectChannel H h2 _ _) as [dmChannel|err].
    + rewrite !run_bind, run_call. cbn [fst snd].
      destruct (host_CreatePost H h3 _) as [q'|err]; simpl.
      * done.
      * rewrite run_emit. by rewrite <- app_assoc.
    + simpl. by rewrite run_emit.
  - simpl. by rewrite run_emit.
Qed.

(** C5, as stated, fails: when the host refuses the channel notice, the
    worker logs the failure and never hands the direct notice to the host; it
    does not even ask for the direct channel. *)
Lemma channel_notice_failure_blocks_direct_notice :
  added_by (Processor.takeDown createFailsHost theProcessor userPost) []
  = [EvDeletePost (Id userPost);
     EvCreatePost (Processor.channelNotice theProcessor userPost);
     reportLog userPost "failed to post channel notification" "channel is archived"]
  /\ ~ direct_notice_attempted theProcessor userPost
         (added_by (Processor.takeDown createFailsHost theProcessor userPost) []).
Proof.
  assert (Hrun : added_by (Processor.takeDown createFailsHost theProcessor userPost) []
    = [EvDeletePost (Id userPost);
       EvCreatePost (Processor.channelNotice theProcessor userPost);
       reportLog userPost "failed to post channel notification" "channel is archived"])
    by (by vm_compute).
  split; [done|]. rewrite Hrun. intros [dmChannel Hin].
  repeat (apply elem_of_cons in Hin as [Heq|Hin]; [discriminate Heq|]).
  by apply elem_of_nil in Hin.
Qed.

(** C5, amended. After a rejection the worker always asks for the deletion
    and then, whatever the outcome of the deletion (a failure adds one log
    entry), always hands the channel notice to the host.  If the channel
    notice fails, that failure is logged and the sequence ends: no direct
    channel is requested and no direct notice is sent.  If it succeeds, the
    direct channel is requested; a failure there is logged and ends the
    sequence; otherwise the direct notice is handed to the host and a failure
    is logged.  A failure of the direct notice comes after the channel notice
    and leaves it in place.  The deletion is asked for exactly once. *)
Theorem takedown_steps_under_failures
    (H : Host) (p : Processor.PostProcessor) (post : Post) (h : Trace) :
  let d := host_DeletePost H h (Id post) in
  let h1 := h ++ EvDeletePost (Id post) :: deleteLog post d in
  let cn := Processor.channelNotice p post in
  let h2 := h1 ++ [EvCreatePost cn] in
  let ask := EvGetDirectChannel (Processor.botID p) (UserId post) in
  let h3 := h2 ++ [ask] in
  let added := added_by (Processor.takeDown H p post) h in
  let first := EvDeletePost (Id post) :: deleteLog post d ++ [EvCreatePost cn] in
  match host_CreatePost H h1 cn with
  | inr err =>
      added = first ++ [reportLog post "failed to post channel notification" err]
  | inl _ =>
      match host_GetDirectChannel H h2 (Processor.botID p) (UserId post) with
      | inr err =>
          added = first ++ [ask; reportLog post "failed to create DM channel" err]
      | inl dmChannel =>
          let dn := Processor.directNotice p dmChannel post in
          match host_CreatePost H h3 dn with
          | inr err =>
              added = first ++ [ask; EvCreatePost dn;
                                reportLog post "failed to send DM notification" err]
          | inl _ => added = first ++ [ask; EvCreatePost dn]
          end
      end
  end
  /\ length (filter (fun e => is_delete e = true) added) = 1%nat.
Proof.
  intros d h1 cn h2 ask h3 added first.
  pose proof (takeDown_run H p post h) as Hrun. cbv zeta in Hrun.
  fold d h1 cn h2 ask h3 in Hrun.
  assert (Hh2 : h2 = h ++ first).
  { unfold h2, h1, first. by rewrite <- app_assoc. }
  assert (Hh3 : h3 = h ++ first ++ [ask]).
  { unfold h3. rewrite Hh2. by rewrite <- app_assoc. }
  assert (Hfirst : filter (fun e => is_delete e = true) first = [EvDeletePost (Id post)]).
  { unfold first. rewrite filter_cons_True by done. f_equal.
    rewrite filter_app. destruct d; done. }
  unfold added.
  destruct (host_CreatePost H h1 cn) as [q|err].
  - destruct (host_GetDirectChannel H h2 _ _) as [dmChannel|err].
    + cbv zeta. destruct (host_CreatePost H h3 _) as [q'|err];
        rewrite Hh3, <- !app_assoc in Hrun; rewrite (added_by_run _ _ _ _ Hrun);
        (split; [done|]); rewrite !filter_app, Hfirst; done.
    + rewrite Hh3, <- !app_assoc in Hrun. rewrite (added_by_run _ _ _ _ Hrun).
      split; [done|]. rewrite !filter_app, Hfirst. done.
  - rewrite Hh2, <- !app_assoc in Hrun. rewrite (added_by_run _ _ _ _ Hrun).
    split; [done|]. rewrite !filter_app, Hfirst. done.
Qed.

(** ** The bot's own posts *)

(** C6, as stated, fails on the gate: [Plugin] has no bot identity; with
    moderation applied to all users a post written by the bot is sent to the
    scoring provider and is judged like any other post. *)
Lemma gate_scores_bot_post :
  UserId botPost = Processor.botID theProcessor
  /\ verdict_of (result_of (Plugin.moderatePost workingHost thePlugin botPost) [])
     = Violation
  /\ EvModerateText (Message botPost)
     ∈ trace_of (Plugin.moderatePost workingHost thePlugin botPost) [].
Proof.
  split; [done|]. split; [by vm_compute|].
  assert (Ht : exists l, trace_of (Plugin.moderatePost workingHost thePlugin botPost) []
                         = EvModerateText (Message botPost) :: l)
    by (eexists; by vm_compute).
  destruct Ht as [l ->]. by left.
Qed.

Lemma gate_moderatePost_skips H pl post h :
  gate_reaches_provider pl post = false ->
  Plugin.moderatePost H pl post h = (None, h).
Proof.
  unfold gate_reaches_provider, Plugin.moderatePost. intros Hg.
  destruct (Plugin.moderator pl); simpl in *; [|done].
  destruct (Plugin.shouldModerateUser pl (UserId post)); simpl in *; [|done].
  apply negb_false_iff in Hg. by rewrite Hg.
Qed.

Lemma gate_moderatePost_scores H pl post h :
  gate_reaches_provider pl post = true ->
  exists v l, Plugin.moderatePost H pl post h
              = (v, h ++ EvModerateText (Message post) :: l).
Proof.
  unfold gate_reaches_provider, Plugin.moderatePost, Plugin.logFlaggedResult.
  rewrite !andb_true_iff, negb_true_iff. intros [[-> ->] ->]. simpl.
  rewrite run_bind, run_call. cbn [fst snd].
  destruct (host_ModerateText H h (Message post)) as [result|err].
  - destruct (Plugin.resultSeverityAboveThreshold pl result).
    + rewrite run_bind, run_emit. cbn [fst snd]. rewrite run_ret, <- app_assoc.
      by eexists _, [_].
    + rewrite run_ret. by eexists _, [].
  - rewrite run_bind, run_emit. cbn [fst snd]. rewrite run_ret, <- app_assoc.
    by eexists _, [_].
Qed.

(** C6, amended. On the worker path a post written by the bot is Clear
    without a call to the scoring provider, whatever the exemption sets are:
    the worker only pauses.  The gate knows no bot identity: it lets a post
    through without a provider call exactly when no moderator is set, the
    author is not a moderation target, or the text is empty, and otherwise it
    calls the provider, also for a post of the bot. *)
Theorem bot_post_is_clear_on_worker_path
    (H : Host) (p : Processor.PostProcessor) (pl : Plugin.Plugin)
    (post : Post) (h : Trace) :
  UserId post = Processor.botID p ->
  Processor.moderatePost H p post h = (None, h)
  /\ Processor.processPost H p post h = (tt, h ++ [EvSleep Processor.processingInterval])
  /\ (if gate_reaches_provider pl post
      then exists v l, Plugin.moderatePost H pl post h
                       = (v, h ++ EvModerateText (Message post) :: l)
      else Plugin.moderatePost H pl post h = (None, h)).
Proof.
  intros Hbot.
  assert (Hmod : forall h', Processor.moderatePost H p post h' = (None, h')).
  { intros h'. unfold Processor.moderatePost, Processor.shouldModerateUser.
    rewrite Hbot, String.eqb_refl. done. }
  split; [apply Hmod|]. split.
  - unfold Processor.processPost. rewrite run_bind, run_emit. cbn [fst snd].
    rewrite run_bind, Hmod. done.
  - destruct (gate_reaches_provider pl post) eqn:Hg.
    + by apply gate_moderatePost_scores.
    + by apply gate_moderatePost_skips.
Qed.

(** The theorem applied to a post of the bot, with the bot in no set. *)
Lemma bot_post_is_clear_on_worker_path_witness :
  UserId botPost = Processor.botID theProcessor
  /\ Processor.moderatePost workingHost theProcessor botPost [] = (None, []).
Proof.
  split; [reflexivity|].
  apply (bot_post_is_clear_on_worker_path workingHost theProcessor thePlugin botPost []).
  reflexivity.
Defined.

(** ** The gate *)

Lemma gate_moderatePost_quiet H pl post h :
  exists l, Plugin.moderatePost H pl post h
            = (result_of (Plugin.moderatePost H pl post) h, h ++ l)
            /\ Forall (fun e => is_action e = false) l.
Proof.
  unfold result_of, Plugin.moderatePost, Plugin.logFlaggedResult.
  destruct (negb (Plugin.moderator pl) || negb (Plugin.shouldModerateUser pl (UserId post))).
  { exists []. rewrite app_nil_r. done. }
  destruct (String.eqb (Message post) "").
  { exists []. rewrite app_nil_r. done. }
  rewrite run_bind, run_call. cbn [fst snd].
  destruct (host_ModerateText H h (Message post)) as [result|err].
  - destruct (Plugin.resultSeverityAboveThreshold pl result).
    + rewrite run_bind, run_emit. cbn [fst snd]. rewrite run_ret, <- app_assoc.
      eexists [_; _]. split; [done|]. repeat constructor.
    + rewrite run_ret. eexists [_]. split; [done|]. repeat constructor.
  - rewrite run_bind, run_emit. cbn [fst snd]. rewrite run_ret, <- app_assoc.
    eexists [_; _]. split; [done|]. repeat constructor.
Qed.

(** C7. On the gate, a Clear verdict lets the post through as it is (the
    creation hook returns no replacement, the edit hook returns the new post
    itself); a Violation or Unavailable verdict makes both hooks return a
    post that has the id, author, channel and thread of the new post and
    whose text is the fixed notice of that verdict, the two notices being
    different texts; the rejection reason is the empty string in every case;
    and the hooks ask for no deletion, create no post and open no direct
    channel. *)
Theorem gate_rewrites_instead_of_rejecting
    (H : Host) (pl : Plugin.Plugin) (newPost oldPost : Post) (h : Trace) :
  let posted := Plugin.MessageWillBePosted H pl newPost in
  let updated := Plugin.MessageWillBeUpdated H pl newPost oldPost in
  match result_of (Plugin.moderatePost H pl newPost) h with
  | None =>
      result_of posted h = (None, "")
      /\ result_of updated h = (Some newPost, "")
  | Some e =>
      let replacement :=
        {| Id := Id newPost; UserId := UserId newPost;
           ChannelId := ChannelId newPost; RootId := RootId newPost;
           Message :=
             match e with
             | ErrModerationRejection =>
                 "_This post has been redacted by the moderation plugin: potentially inappropriate content detected_"
             | ErrModerationUnavailable =>
                 "_This post has been redacted by the moderation plugin: moderation service is not available_"
             end |} in
      result_of posted h = (Some replacement, "")
      /\ result_of updated h = (Some replacement, "")
  end
  /\ Plugin.Error ErrModerationRejection <> Plugin.Error ErrModerationUnavailable
  /\ Forall (fun e => is_action e = false) (added_by posted h)
  /\ Forall (fun e => is_action e = false) (added_by updated h).
Proof.
  intros posted updated.
  destruct (gate_moderatePost_quiet H pl newPost h) as (l & Hrun & Hquiet).
  set (v := result_of (Plugin.moderatePost H pl newPost) h) in *.
  assert (Hp : posted h
    = (match v with
       | Some e => (Some (Plugin.withMessage newPost (Plugin.Error e)), "")
       | None => (None, "")
       end, h ++ l)).
  { unfold posted, Plugin.MessageWillBePosted. rewrite run_bind, Hrun. cbn [fst snd].
    by destruct v. }
  assert (Hu : updated h
    = (match v with
       | Some e => (Some (Plugin.withMessage newPost (Plugin.Error e)), "")
       | None => (Some newPost, "")
       end, h ++ l)).
  { unfold updated, Plugin.MessageWillBeUpdated. rewrite run_bind, Hrun. cbn [fst snd].
    by destruct v. }
  rewrite (added_by_run _ _ _ _ Hp), (added_by_run _ _ _ _ Hu).
  unfold result_of at 1 2 3 4. rewrite Hp, Hu. cbn [fst].
  split; [by destruct v as [[]|]|]. split; [discriminate|]. done.
Qed.

(** ** Admission to the queue *)

Lemma queuePostForProcessing_run ch post h :
  Processor.queuePostForProcessing ch post h
  = if Processor.closed ch then (Processor.Returned ch, h ++ [recoveredLog post])
    else if Z.of_nat (length (Processor.buf ch)) <? Processor.maxProcessingQueueSize
         then (Processor.Returned
                 {| Processor.buf := Processor.buf ch ++ [post];
                    Processor.closed := false |}, h)
         else (Processor.Returned ch, h ++ [overflowLog post]).
Proof.
  unfold Processor.queuePostForProcessing, Processor.queueSelect, Processor.trySend.
  rewrite run_bind.
  destruct (Processor.closed ch); [done|].
  destruct (_ <? _); [done|].
  rewrite run_bind, run_emit. done.
Qed.

(** C8, as stated, fails on a queue that is full and closed: the send
    panics, the panic is recovered, and the only log entry is the debug entry
    of the recovery; no error is logged. *)
Lemma full_closed_queue_logs_no_error :
  Z.of_nat (length (Processor.buf fullClosedChan)) = Processor.maxProcessingQueueSize
  /\ Processor.queuePostForProcessing fullClosedChan botPost []
     = (Processor.Returned fullClosedChan, [recoveredLog botPost])
  /\ filter (fun e => is_error_log e = true)
       (added_by (Processor.queuePostForProcessing fullClosedChan botPost) []) = [].
Proof.
  split; [by vm_compute|].
  assert (Hrun : Processor.queuePostForProcessing fullClosedChan botPost []
                 = (Processor.Returned fullClosedChan, [recoveredLog botPost]))
    by (by rewrite queuePostForProcessing_run).
  split; [exact Hrun|]. by rewrite (added_by_run _ [] [recoveredLog botPost] _ Hrun).
Qed.

(** C8, amended. Admission always returns to the caller, for every state of
    the queue and without a panic.  On a queue that holds
    [maxProcessingQueueSize] items the new item is dropped and the queue is
    returned as it was; if the queue is open, one error log entry is written;
    if it is closed, the send panics, the panic is recovered and one debug
    log entry is written instead. *)
Theorem full_queue_drops_without_blocking
    (ch : Processor.Chan) (post : Post) (h : Trace) :
  Z.of_nat (length (Processor.buf ch)) = Processor.maxProcessingQueueSize ->
  Processor.queuePostForProcessing ch post h
  = (Processor.Returned ch,
     h ++ [if Processor.closed ch then recoveredLog post else overflowLog post])
  /\ (forall ch0 post0 h0, exists ch' l,
        Processor.queuePostForProcessing ch0 post0 h0
        = (Processor.Returned ch', h0 ++ l)).
Proof.
  intros Hfull. split.
  - rewrite queuePostForProcessing_run, Hfull, Z.ltb_irrefl.
    by destruct (Processor.closed ch).
  - intros ch0 post0 h0. rewrite queuePostForProcessing_run.
    destruct (Processor.closed ch0); [by eexists _, [_]|].
    destruct (_ <? _); [|by eexists _, [_]].
    eexists _, []. by rewrite app_nil_r.
Qed.

(** The theorem applied to an open queue of ten thousand posts. *)
Lemma full_queue_drops_without_blocking_witness :
  Z.of_nat (length (Processor.buf fullChan)) = Processor.maxProcessingQueueSize
  /\ Processor.queuePostForProcessing fullChan botPost []
     = (Processor.Returned fullChan, [overflowLog botPost]).
Proof.
  split; [by vm_compute|].
  apply (full_queue_drops_without_blocking fullChan botPost []). by vm_compute.
Defined.

(** C10. Once [stop] has closed the queue, the send inside admission panics,
    and admission itself recovers: it writes one debug log entry, leaves the
    queue as it is, and returns normally. *)
Theorem enqueue_after_stop_recovers
    (ch ch' : Processor.Chan) (post : Post) (h : Trace) :
  Processor.stop ch = Processor.Returned ch' ->
  Processor.queueSelect ch' post h = (Processor.Panicked "send on closed channel", h)
  /\ Processor.queuePostForProcessing ch' post h
     = (Processor.Returned ch', h ++ [recoveredLog post]).
Proof.
  unfold Processor.stop. destruct (Processor.closed ch) eqn:Hc; [discriminate|].
  intros [= <-]. split.
  - done.
  - by rewrite queuePostForProcessing_run.
Qed.

(** The theorem applied to a fresh queue that is stopped at once. *)
Lemma enqueue_after_stop_recovers_witness :
  Processor.stop Processor.newChan
  = Processor.Returned {| Processor.buf := []; Processor.closed := true |}
  /\ Processor.queuePostForProcessing
       {| Processor.buf := []; Processor.closed := true |} userPost []
     = (Processor.Returned {| Processor.buf := []; Processor.closed := true |},
        [recoveredLog userPost]).
Proof.
  split; [reflexivity|].
  apply (enqueue_after_stop_recovers Processor.newChan _ userPost []).
  reflexivity.
Defined.

(** ** A violation on the worker path *)

Lemma moderatePost_rejected H p post h :
  result_of (Processor.moderatePost H p post) h = Some ErrModerationRejection ->
  exists info,
    Processor.moderatePost H p post h
    = (Some ErrModerationRejection,
       h ++ [EvModerateText (Message post);
             EvLog LevelInfo "Content was flagged by moderation" info]).
Proof.
  unfold result_of, Processor.moderatePost, Processor.logFlaggedResult.
  destruct (negb (Processor.shouldModerateUser p (UserId post))); [done|].
  destruct (negb (Processor.shouldModerateChannel p (ChannelId post))); [done|].
  destruct (String.eqb (Message post) ""); [done|].
  rewrite run_bind, run_call. cbn [fst snd].
  destruct (host_ModerateText H h (Message post)) as [result|err]; [|done].
  destruct (Processor.resultSeverityAboveThreshold p result); [|done].
  intros _. rewrite run_bind, run_emit. cbn [fst snd].
  rewrite run_ret, <- app_assoc. by eexists.
Qed.

Lemma processPost_rejected H p post h :
  let h0 := h ++ [EvSleep Processor.processingInterval] in
  verdict_of (result_of (Processor.moderatePost H p post) h0) = Violation ->
  exists info,
    trace_of (Processor.moderatePost H p post) h0
    = h ++ [EvSleep Processor.processingInterval; EvModerateText (Message post);
            EvLog LevelInfo "Content was flagged by moderation" info]
    /\ Processor.processPost H p post h
       = Processor.takeDown H p post (trace_of (Processor.moderatePost H p post) h0).
Proof.
  intros h0 Hv.
  assert (Hrej : result_of (Processor.moderatePost H p post) h0
                 = Some ErrModerationRejection).
  { destruct (result_of _ h0) as [[]|]; done. }
  destruct (moderatePost_rejected H p post h0 Hrej) as [info Hmod].
  exists info. unfold trace_of. rewrite Hmod. cbn [snd]. split.
  - unfold h0. by rewrite <- app_assoc.
  - unfold Processor.processPost. rewrite run_bind, run_emit. cbn [fst snd].
    fold h0. rewrite run_bind, Hmod. cbn [fst snd].
    by destruct (decide _).
Qed.

Lemma filter_deleteLog (P : Event -> Prop) `{forall e, Decision (P e)}
    (post : Post) (answer : option string) :
  (forall l m k, ~ P (EvLog l m k)) -> filter P (deleteLog post answer) = [].
Proof.
  intros Hno. destruct answer; [|done].
  simpl. by rewrite filter_cons_False, filter_nil by apply Hno.
Qed.

(** C9, as stated, fails when the host refuses the channel notice: the post
    is judged a violation, the deletion is requested and the channel notice
    is handed to the host, but no direct message is sent to the author. *)
Lemma violation_without_direct_notice :
  verdict_of (result_of (Processor.moderatePost createFailsHost theProcessor userPost)
                [EvSleep Processor.processingInterval]) = Violation
  /\ filter (fun e => is_create e = true)
       (added_by (Processor.processPost createFailsHost theProcessor userPost) [])
     = [EvCreatePost (Processor.channelNotice theProcessor userPost)]
  /\ ~ direct_notice_attempted theProcessor userPost
         (added_by (Processor.processPost createFailsHost theProcessor userPost) []).
Proof.
  split; [by vm_compute|].
  assert (Hrun : exists info,
    added_by (Processor.processPost createFailsHost theProcessor userPost) []
    = [EvSleep Processor.processingInterval; EvModerateText (Message userPost);
       EvLog LevelInfo "Content was flagged by moderation" info;
       EvDeletePost (Id userPost);
       EvCreatePost (Processor.channelNotice theProcessor userPost);
       reportLog userPost "failed to post channel notification" "channel is archived"])
    by (eexists; by vm_compute).
  destruct Hrun as [info ->]. split; [done|].
  intros [dmChannel Hin].
  repeat (apply elem_of_cons in Hin as [Heq|Hin]; [discriminate Heq|]).
  by apply elem_of_nil in Hin.
Qed.

(** C9, amended. When the worker judges a post a violation, its iteration
    asks for the deletion of that post exactly once and hands exactly one
    channel notice to the host: written by the bot, in the channel and thread
    of the post, with the fixed template as its text, the same whatever the
    text of the post is.  If the host accepts the channel notice and provides
    the direct channel between the bot and the author, the iteration then
    creates exactly one more post, the direct notice, written by the bot in
    that direct channel, whose text ends with the text of the post.  If the
    host refuses the channel notice, no direct channel is requested and no
    direct notice is sent; if the direct channel cannot be obtained, no
    direct notice is sent. *)
Theorem violation_is_deleted_and_notified
    (H : Host) (p : Processor.PostProcessor) (post : Post) (h : Trace) :
  let h0 := h ++ [EvSleep Processor.processingInterval] in
  let hm := trace_of (Processor.moderatePost H p post) h0 in
  let h1 := hm ++ EvDeletePost (Id post) :: deleteLog post (host_DeletePost H hm (Id post)) in
  let cn := Processor.channelNotice p post in
  let h2 := h1 ++ [EvCreatePost cn] in
  let ask := EvGetDirectChannel (Processor.botID p) (UserId post) in
  let added := added_by (Processor.processPost H p post) h in
  let deletions := filter (fun e => is_delete e = true) added in
  let posts := filter (fun e => is_create e = true) added in
  let lookups := filter (fun e => is_direct_channel e = true) added in
  verdict_of (result_of (Processor.moderatePost H p post) h0) = Violation ->
  deletions = [EvDeletePost (Id post)]
  /\ UserId cn = Processor.botID p
  /\ ChannelId cn = ChannelId post
  /\ RootId cn = RootId post
  /\ Message cn = Processor.channelNotificationTemplate
  /\ (forall other, ChannelId other = ChannelId post -> RootId other = RootId post ->
        Processor.channelNotice p other = cn)
  /\ match host_CreatePost H h1 cn with
     | inr _ => posts = [EvCreatePost cn] /\ lookups = []
     | inl _ =>
         match host_GetDirectChannel H h2 (Processor.botID p) (UserId post) with
         | inr _ => posts = [EvCreatePost cn] /\ lookups = [ask]
         | inl dmChannel =>
             let dn := Processor.directNotice p dmChannel post in
             posts = [EvCreatePost cn; EvCreatePost dn]
             /\ lookups = [ask]
             /\ UserId dn = Processor.botID p
             /\ ChannelId dn = Channel_Id dmChannel
             /\ Message dn = Processor.dmNotificationPrefix +:+ Message post
         end
     end.
Proof.
  intros h0 hm h1 cn h2 ask added deletions posts lookups Hv.
  destruct (processPost_rejected H p post h Hv) as (info & Hhm & Hstep).
  fold h0 hm in Hhm, Hstep.
  pose proof (takeDown_run H p post hm) as Hrun. cbv zeta in Hrun.
  fold h1 cn h2 ask in Hrun. rewrite <- Hstep in Hrun.
  set (d := host_DeletePost H hm (Id post)) in *.
  assert (Hh2 : h2 = h ++ [EvSleep Processor.processingInterval;
                           EvModerateText (Message post);
                           EvLog LevelInfo "Content was flagged by moderation" info;
                           EvDeletePost (Id post)]
                       ++ deleteLog post d ++ [EvCreatePost cn]).
  { unfold h2, h1. rewrite Hhm. by rewrite <- !app_assoc. }
  assert (Hdel : filter (fun e => is_delete e = true) (deleteLog post d) = [])
    by (by apply filter_deleteLog).
  assert (Hcre : filter (fun e => is_create e = true) (deleteLog post d) = [])
    by (by apply filter_deleteLog).
  assert (Hdir : filter (fun e => is_direct_channel e = true) (deleteLog post d) = [])
    by (by apply filter_deleteLog).
  assert (Hcases :
    match host_CreatePost H h1 cn with
    | inr err =>
        added = [EvSleep Processor.processingInterval; EvModerateText (Message post);
                 EvLog LevelInfo "Content was flagged by moderation" info;
                 EvDeletePost (Id post)] ++ deleteLog post d
                ++ [EvCreatePost cn;
                    reportLog post "failed to post channel notification" err]
    | inl _ =>
        match host_GetDirectChannel H h2 (Processor.botID p) (UserId post) with
        | inr err =>
            added = [EvSleep Processor.processingInterval; EvModerateText (Message post);
                     EvLog LevelInfo "Content was flagged by moderation" info;
                     EvDeletePost (Id post)] ++ deleteLog post d
                    ++ [EvCreatePost cn; ask;
                        reportLog post "failed to create DM channel" err]
        | inl dmChannel =>
            exists tail,
              added = [EvSleep Processor.processingInterval;
                       EvModerateText (Message post);
                       EvLog LevelInfo "Content was flagged by moderation" info;
                       EvDeletePost (Id post)] ++ deleteLog post d
                      ++ [EvCreatePost cn; ask;
                          EvCreatePost (Processor.directNotice p dmChannel post)]
                      ++ tail
              /\ Forall (fun e => is_log e = true) tail
        end
    end).
  { unfold added. destruct (host_CreatePost H h1 cn) as [q|err].
    - destruct (host_GetDirectChannel H h2 _ _) as [dmChannel|err].
      + cbv zeta in Hrun. destruct (host_CreatePost H _ _) as [q'|err];
          [exists [] | eexists [_]];
          (split;
           [apply (added_by_run _ _ _ tt); rewrite Hrun, Hh2; by rewrite <- !app_assoc
           |by repeat constructor]).
      + apply (added_by_run _ _ _ tt). rewrite Hrun, Hh2. by rewrite <- !app_assoc.
    - apply (added_by_run _ _ _ tt). rewrite Hrun, Hh2. by rewrite <- !app_assoc. }
  assert (Hlogs : forall (P : Event -> Prop) `{forall e, Decision (P e)} tail,
            (forall l m k, ~ P (EvLog l m k)) ->
            Forall (fun e => is_log e = true) tail -> filter P tail = []).
  { intros P ? tail Hno. induction 1 as [|e tail He _ IH]; [done|].
    destruct e; try discriminate He. by rewrite filter_cons_False by apply Hno. }
  subst deletions posts lookups.
  destruct (host_CreatePost H h1 cn) as [q|err].
  - destruct (host_GetDirectChannel H h2 _ _) as [dmChannel|err].
    + destruct Hcases as (tail & -> & Htail). cbv zeta.
      rewrite !filter_app, Hdel, Hcre, Hdir.
      rewrite (Hlogs (fun e => is_delete e = true) _ tail) by done.
      rewrite (Hlogs (fun e => is_create e = true) _ tail) by done.
      rewrite (Hlogs (fun e => is_direct_channel e = true) _ tail) by done.
      repeat split; try done;
        intros other Hc Hr; unfold cn, Processor.channelNotice; by rewrite Hc, Hr.
    + rewrite Hcases, !filter_app, Hdel, Hcre, Hdir. repeat split; try done;
        intros other Hc Hr; unfold cn, Processor.channelNotice; by rewrite Hc, Hr.
  - rewrite Hcases, !filter_app, Hdel, Hcre, Hdir. repeat split; try done;
        intros other Hc Hr; unfold cn, Processor.channelNotice; by rewrite Hc, Hr.
Qed.

(** The theorem applied to the scenario of the specification: threshold 50,
    score [{"hate": 80}], a host on which everything works. *)
Lemma violation_is_deleted_and_notified_witness :
  verdict_of (result_of (Processor.moderatePost workingHost theProcessor userPost)
                [EvSleep Processor.processingInterval]) = Violation
  /\ filter (fun e => is_create e = true)
       (added_by (Processor.processPost workingHost theProcessor userPost) [])
     = [EvCreatePost (Processor.channelNotice theProcessor userPost);
        EvCreatePost (Processor.directNotice theProcessor
                        {| Channel_Id := "bot__alice" |} userPost)].
Proof.
  assert (Hv : verdict_of (result_of (Processor.moderatePost workingHost theProcessor
                                        userPost)
                             [EvSleep Processor.processingInterval]) = Violation)
    by (by vm_compute).
  split; [exact Hv|].
  destruct (violation_is_deleted_and_notified workingHost theProcessor userPost [] Hv)
    as (_ & _ & _ & _ & _ & _ & Hnotices).
  exact (proj1 Hnotices).
Defined.

(** * Further properties of the code *)

(** ** Exemptions of the worker path *)

Lemma size_zero_empty (X : gset string) : size X = 0%nat <-> X = ∅.
Proof. rewrite size_empty_iff. by unfold_leibniz. Qed.

(** X1. On the worker path a user is moderated exactly when the user is not
    the bot and is not in the set of excluded users, and a channel is
    moderated exactly when it is not in the set of excluded channels; an
    empty set therefore excludes nobody. *)
Theorem worker_exemption_iff
    (p : Processor.PostProcessor) (userID channelID : string) :
  (Processor.shouldModerateUser p userID = true
     <-> userID <> Processor.botID p /\ userID ∉ Processor.excludedUsers p)
  /\ (Processor.shouldModerateChannel p channelID = true
     <-> channelID ∉ Processor.excludedChannels p).
Proof.
  unfold Processor.shouldModerateUser, Processor.shouldModerateChannel. split.
  - destruct (String.eqb_spec userID (Processor.botID p)) as [->|Hne].
    { split; [discriminate | by intros [? _]]. }
    case_bool_decide as Hsz.
    + apply size_zero_empty in Hsz. rewrite Hsz. split; [|done].
      intros _. split; [done | set_solver].
    + rewrite negb_true_iff, bool_decide_eq_false. tauto.
  - case_bool_decide as Hsz.
    + apply size_zero_empty in Hsz. rewrite Hsz. split; [set_solver | done].
    + by rewrite negb_true_iff, bool_decide_eq_false.
Qed.

Lemma moderatePost_run H p post h :
  Processor.moderatePost H p post h
  = if reaches_provider p post then
      match host_ModerateText H h (Message post) with
      | inr _ => (Some ErrModerationUnavailable, h ++ [EvModerateText (Message post)])
      | inl result =>
          if Processor.resultSeverityAboveThreshold p result
          then (Some ErrModerationRejection,
                h ++ [EvModerateText (Message post); flaggedLog p post result])
          else (None, h ++ [EvModerateText (Message post)])
      end
    else (None, h).
Proof.
  unfold reaches_provider, Processor.moderatePost, Processor.logFlaggedResult, flaggedLog.
  destruct (Processor.shouldModerateUser p (UserId post)); [|done].
  destruct (Processor.shouldModerateChannel p (ChannelId post)); [|done].
  destruct (String.eqb (Message post) ""); [done|]. simpl.
  rewrite run_bind, run_call. cbn [fst snd].
  destruct (host_ModerateText H h (Message post)) as [result|err]; [|done].
  destruct (Processor.resultSeverityAboveThreshold p result); [|done].
  rewrite run_bind, run_emit. cbn [fst snd]. by rewrite <- app_assoc.
Qed.

(** X2. A post of an excluded user, a post in an excluded channel and a post
    with an empty text are Clear on the worker path without a call to the
    scoring provider: the worker's iteration for such a post is the pause
    alone. *)
Theorem exempt_post_is_clear
    (H : Host) (p : Processor.PostProcessor) (post : Post) (h : Trace) :
  UserId post ∈ Processor.excludedUsers p
  \/ ChannelId post ∈ Processor.excludedChannels p
  \/ Message post = "" ->
  Processor.moderatePost H p post h = (None, h)
  /\ Processor.processPost H p post h
     = (tt, h ++ [EvSleep Processor.processingInterval]).
Proof.
  intros Hex.
  assert (Hset : forall (X : gset string) x, x ∈ X ->
            (if bool_decide (size X = 0%nat) then true
             else negb (bool_decide (x ∈ X))) = false).
  { intros X x Hin. case_bool_decide as Hsz.
    - apply size_zero_empty in Hsz. subst X. by apply not_elem_of_empty in Hin.
    - by rewrite bool_decide_eq_true_2. }
  assert (Hr : reaches_provider p post = false).
  { unfold reaches_provider, Processor.shouldModerateUser,
      Processor.shouldModerateChannel.
    destruct Hex as [Hin|[Hin| ->]].
    - rewrite (Hset _ _ Hin). by destruct (String.eqb _ _).
    - rewrite (Hset _ _ Hin). by rewrite andb_false_r.
    - by rewrite andb_false_r. }
  assert (Hmod : forall h', Processor.moderatePost H p post h' = (None, h')).
  { intros h'. by rewrite moderatePost_run, Hr. }
  split; [apply Hmod|].
  unfold Processor.processPost. rewrite run_bind, run_emit. cbn [fst snd].
  by rewrite run_bind, Hmod.
Qed.

(** The theorem applied to a post of the excluded user [alice]. *)
Lemma exempt_post_is_clear_witness :
  (UserId userPost ∈ Processor.excludedUsers exemptingProcessor
   \/ ChannelId userPost ∈ Processor.excludedChannels exemptingProcessor
   \/ Message userPost = "")
  /\ Processor.moderatePost workingHost exemptingProcessor userPost [] = (None, []).
Proof.
  assert (Hex : UserId userPost ∈ Processor.excludedUsers exemptingProcessor
                \/ ChannelId userPost ∈ Processor.excludedChannels exemptingProcessor
                \/ Message userPost = "").
  { left. simpl. set_solver. }
  split; [exact Hex|].
  apply (exempt_post_is_clear workingHost exemptingProcessor userPost [] Hex).
Defined.

(** ** What the worker does to a post *)

Lemma takeDown_added H p post h :
  exists l,
    Processor.takeDown H p post h = (tt, h ++ EvDeletePost (Id post) :: l)
    /\ Forall (fun e => is_delete e = false /\ is_provider_call e = false) l
    /\ exists tail, filter (fun e => is_create e = true) l
                    = EvCreatePost (Processor.channelNotice p post) :: tail.
Proof.
  pose proof (takeDown_run H p post h) as Hrun. cbv zeta in Hrun.
  set (d := host_DeletePost H h (Id post)) in *.
  assert (Hd : Forall (fun e => is_delete e = false /\ is_provider_call e = false)
                 (deleteLog post d)) by (destruct d; repeat constructor).
  assert (Hc : filter (fun e => is_create e = true) (deleteLog post d) = [])
    by (by destruct d).
  destruct (host_CreatePost H _ (Processor.channelNotice p post)) as [q|err].
  - destruct (host_GetDirectChannel H _ _ _) as [dmChannel|err].
    + cbv zeta in Hrun. destruct (host_CreatePost H _ _) as [q'|err];
        (eexists (deleteLog post d ++ _ :: _); split;
         [rewrite Hrun, <- ?app_assoc; simpl; by rewrite <- ?app_assoc|]; split;
         [apply Forall_app; split; [done | repeat constructor]
         | rewrite filter_app, Hc; by eexists]).
    + eexists (deleteLog post d ++ _ :: _). split;
        [rewrite Hrun, <- ?app_assoc; simpl; by rewrite <- ?app_assoc|]. split;
        [apply Forall_app; split; [done | repeat constructor]
        | rewrite filter_app, Hc; by eexists].
  - eexists (deleteLog post d ++ _ :: _). split;
      [rewrite Hrun, <- ?app_assoc; simpl; by rewrite <- ?app_assoc|]. split;
      [apply Forall_app; split; [done | repeat constructor]
      | rewrite filter_app, Hc; by eexists].
Qed.

Lemma processPost_added H p post h :
  exists l,
    Processor.processPost H p post h
    = (tt, h ++ EvSleep Processor.processingInterval :: l)
    /\ filter (fun e => is_provider_call e = true) l
       = (if reaches_provider p post then [EvModerateText (Message post)] else [])
    /\ match verdict_of (result_of (Processor.moderatePost H p post)
                          (h ++ [EvSleep Processor.processingInterval])) with
       | Violation =>
           reaches_provider p post = true
           /\ filter (fun e => is_delete e = true) l = [EvDeletePost (Id post)]
           /\ exists tail, filter (fun e => is_create e = true) l
                           = EvCreatePost (Processor.channelNotice p post) :: tail
       | Clear => Forall (fun e => is_action e = false /\ is_log e = false) l
       | Unavailable =>
           reaches_provider p post = true /\ Forall (fun e => is_action e = false) l
       end.
Proof.
  unfold Processor.processPost, result_of.
  rewrite run_bind, run_emit. cbn [fst snd]. rewrite run_bind.
  set (h0 := h ++ [EvSleep Processor.processingInterval]).
  rewrite moderatePost_run.
  destruct (reaches_provider p post).
  2:{ exists []. cbn [fst snd verdict_of]. unfold h0. rewrite run_ret.
      split; [done|]. split; [done | constructor]. }
  destruct (host_ModerateText H h0 (Message post)) as [result|err].
  - destruct (Processor.resultSeverityAboveThreshold p result).
    + cbn [fst snd verdict_of]. destruct (decide _) as [|_]; [done|].
      destruct (takeDown_added H p post
                  (h0 ++ [EvModerateText (Message post); flaggedLog p post result]))
        as (l & Hrun & Hall & tail & Hcreate).
      exists (EvModerateText (Message post) :: flaggedLog p post result
              :: EvDeletePost (Id post) :: l).
      split; [rewrite Hrun; unfold h0; by rewrite <- !app_assoc|].
      assert (Hnd : filter (fun e => is_delete e = true) l = []).
      { clear -Hall. induction Hall as [|e l [He _] _ IH]; [done|].
        rewrite filter_cons_False by (by rewrite He). done. }
      assert (Hnp : filter (fun e => is_provider_call e = true) l = []).
      { clear -Hall. induction Hall as [|e l [_ He] _ IH]; [done|].
        rewrite filter_cons_False by (by rewrite He). done. }
      split.
      { rewrite filter_cons_True by done. rewrite filter_cons_False by done.
        rewrite filter_cons_False by done. by rewrite Hnp. }
      split; [done|]. split.
      { rewrite filter_cons_False by done. rewrite filter_cons_False by done.
        rewrite filter_cons_True by done. by rewrite Hnd. }
      exists tail. rewrite filter_cons_False by done. rewrite filter_cons_False by done.
      rewrite filter_cons_False by done. done.
    + cbn [fst snd verdict_of]. rewrite run_ret.
      exists [EvModerateText (Message post)].
      split; [unfold h0; by rewrite <- !app_assoc|]. split; [done|].
      repeat constructor.
  - cbn [fst snd verdict_of]. destruct (decide _) as [_|]; [|done].
    rewrite run_emit.
    exists [EvModerateText (Message post); unavailableLog post].
    split; [unfold h0; by rewrite <- !app_assoc|]. split; [done|].
    split; [done|]. repeat constructor.
Qed.

(** X3. Whatever the host answers, the worker's iteration for a post asks for
    a deletion and creates posts only when the verdict is Violation (then it
    asks for the deletion of that post exactly once and its first created
    post is the channel notice); on a Clear verdict it adds no deletion, no
    post, no direct channel and no log entry at all; on Unavailable it adds
    no deletion, no post and no direct channel. *)
Theorem only_violations_cause_actions
    (H : Host) (p : Processor.PostProcessor) (post : Post) (h : Trace) :
  let added := added_by (Processor.processPost H p post) h in
  match verdict_of (result_of (Processor.moderatePost H p post)
                      (h ++ [EvSleep Processor.processingInterval])) with
  | Violation =>
      filter (fun e => is_delete e = true) added = [EvDeletePost (Id post)]
      /\ exists tail, filter (fun e => is_create e = true) added
                      = EvCreatePost (Processor.channelNotice p post) :: tail
  | Clear => Forall (fun e => is_action e = false /\ is_log e = false) added
  | Unavailable => Forall (fun e => is_action e = false) added
  end.
Proof.
  intros added.
  destruct (processPost_added H p post h) as (l & Hrun & _ & Hv).
  unfold added. rewrite (added_by_run _ _ _ _ Hrun).
  destruct (verdict_of _).
  - by constructor.
  - destruct Hv as (_ & Hd & tail & Hc). split.
    + by rewrite filter_cons_False by done.
    + exists tail. by rewrite filter_cons_False by done.
  - destruct Hv as [_ Hv]. by constructor.
Qed.

(** ** The worker over a whole queue *)

Lemma no_action_no_delete (l : Trace) :
  Forall (fun e => is_action e = false) l ->
  filter (fun e => is_delete e = true) l = [].
Proof.
  induction 1 as [|e l He _ IH]; [done|].
  rewrite filter_cons_False; [done|].
  unfold is_action in He. destruct (is_delete e); [discriminate He | done].
Qed.

Lemma workerLoop_added H p items h :
  exists l,
    Processor.workerLoop H p items h = (tt, h ++ l)
    /\ filter (fun e => is_provider_call e = true) l
       = (fun post => EvModerateText (Message post))
           <$> filter (fun post => reaches_provider p post = true) items
    /\ sublist (filter (fun e => is_delete e = true) l)
         ((fun post => EvDeletePost (Id post))
            <$> filter (fun post => reaches_provider p post = true) items).
Proof.
  revert h. induction items as [|post rest IH]; intros h.
  { exists []. simpl. rewrite app_nil_r. by repeat split. }
  destruct (processPost_added H p post h) as (l1 & Hrun & Hcalls & Hv).
  destruct (IH (h ++ EvSleep Processor.processingInterval :: l1))
    as (l2 & Hrest & Hcalls2 & Hdel2).
  exists (EvSleep Processor.processingInterval :: l1 ++ l2).
  split; [|split].
  - cbn [Processor.workerLoop]. rewrite run_bind, Hrun. cbn [fst snd].
    rewrite Hrest. by rewrite <- app_assoc.
  - rewrite filter_cons_False by done. rewrite filter_app, Hcalls, Hcalls2.
    rewrite filter_cons. destruct (reaches_provider p post) eqn:Hr.
    + by rewrite decide_True by done.
    + by rewrite decide_False by done.
  - rewrite filter_cons_False by done. rewrite filter_app.
    rewrite (filter_cons _ post). destruct (verdict_of _).
    + assert (Hn : Forall (fun e => is_action e = false) l1).
      { eapply Forall_impl; [exact Hv|]. by intros e [? _]. }
      rewrite (no_action_no_delete _ Hn). simpl.
      case_decide; [by apply sublist_cons | done].
    + destruct Hv as (Hr & -> & _). rewrite decide_True by done.
      simpl. by apply sublist_skip.
    + destruct Hv as [_ Hn]. rewrite (no_action_no_delete _ Hn). simpl.
      case_decide; [by apply sublist_cons | done].
Qed.

(** X4. The worker calls the scoring provider once for every item of the
    queue that is not exempt and has a text, with that text, in the order of
    admission, and for no other text: nothing is scored twice and nothing is
    reordered, whatever the host and the provider answer. *)
Theorem worker_scores_in_admission_order
    (H : Host) (p : Processor.PostProcessor) (items : list Post) (h : Trace) :
  filter (fun e => is_provider_call e = true)
    (added_by (Processor.workerLoop H p items) h)
  = (fun post => EvModerateText (Message post))
      <$> filter (fun post => reaches_provider p post = true) items.
Proof.
  destruct (workerLoop_added H p items h) as (l & Hrun & Hcalls & _).
  by rewrite (added_by_run _ _ _ _ Hrun).
Qed.

(** X5. The deletions the worker asks for are a subsequence of the ids of the
    scored items of the queue, in the order of admission: the worker deletes
    no post that was not queued, none that is exempt or empty, and none more
    often than it was queued. *)
Theorem worker_deletes_only_scored_items
    (H : Host) (p : Processor.PostProcessor) (items : list Post) (h : Trace) :
  sublist
    (filter (fun e => is_delete e = true)
       (added_by (Processor.workerLoop H p items) h))
    ((fun post => EvDeletePost (Id post))
       <$> filter (fun post => reaches_provider p post = true) items).
Proof.
  destruct (workerLoop_added H p items h) as (l & Hrun & _ & Hdel).
  by rewrite (added_by_run _ _ _ _ Hrun).
Qed.

(** ** The queue under repeated admission *)

Lemma capacity_max : Z.of_nat capacity = Processor.maxProcessingQueueSize.
Proof. unfold capacity. by rewrite Z2Nat.id. Qed.

#[local] Arguments capacity : simpl never.

Lemma queueAll_run (ch : Processor.Chan) (posts : list Post) (h : Trace) :
  Processor.closed ch = false ->
  (length (Processor.buf ch) <= capacity)%nat ->
  queueAll ch posts h
  = (Processor.Returned
       {| Processor.buf := take capacity (Processor.buf ch ++ posts);
          Processor.closed := false |},
     h ++ (overflowLog <$> drop (capacity - length (Processor.buf ch)) posts)).
Proof.
  revert ch h. induction posts as [|post rest IH]; intros [buf cl] h; simpl;
    intros -> Hlen.
  { rewrite drop_nil, !app_nil_r, take_ge by done. done. }
  rewrite run_bind, queuePostForProcessing_run. cbn [Processor.closed Processor.buf].
  rewrite <- capacity_max.
  destruct (Z.ltb_spec (Z.of_nat (length buf)) (Z.of_nat capacity)) as [Hlt|Hge];
    cbn [fst snd].
  - rewrite IH by (simpl; rewrite ?length_app; simpl; lia).
    cbn [Processor.buf]. rewrite <- app_assoc. simpl. rewrite length_app. simpl.
    replace (capacity - length buf)%nat with (S (capacity - (length buf + 1)))%nat by lia.
    done.
  - assert (Heq : length buf = capacity) by lia.
    rewrite IH by (simpl; lia). cbn [Processor.buf].
    rewrite Heq, Nat.sub_diag, !drop_0. rewrite <- Heq at 1 2.
    rewrite !take_app_length. rewrite fmap_cons, <- app_assoc. done.
Qed.

(** X6. [newPostProcessor] refuses a missing moderator with the Unavailable
    error; otherwise it gives an empty, open queue, and a producer that then
    admits any list of posts never panics and is never blocked: the queue
    ends up holding the first [maxProcessingQueueSize] posts in the order of
    admission, and every later post is dropped with one error log entry, in
    order. *)
Theorem fresh_queue_keeps_first_capacity_posts
    (bot : string) (threshold : Z) (users channels : gset string)
    (posts : list Post) (h : Trace) :
  Processor.newPostProcessor bot false threshold users channels
  = inr ErrModerationUnavailable
  /\ match Processor.newPostProcessor bot true threshold users channels with
     | inr _ => False
     | inl (p, ch) =>
         Processor.botID p = bot
         /\ queueAll ch posts h
            = (Processor.Returned
                 {| Processor.buf := take capacity posts; Processor.closed := false |},
               h ++ (overflowLog <$> drop capacity posts))
     end.
Proof.
  split; [done|]. cbn [Processor.newPostProcessor negb Processor.botID].
  split; [done|].
  rewrite queueAll_run by (cbn [Processor.newChan Processor.buf Processor.closed length]; lia || done).
  cbn [Processor.newChan Processor.buf length app]. by rewrite Nat.sub_0_r.
Qed.

(** X7. One admission, in any state of a queue within its capacity: the
    caller gets a normal return; the closed flag is unchanged; the queue
    stays within its capacity; its content is either unchanged or, on an open
    queue only, extended by the new post at the end, so that no queued post
    is lost or overtaken; and the only events are log entries. *)
Theorem admission_preserves_queue_invariants
    (ch : Processor.Chan) (post : Post) (h : Trace) :
  (length (Processor.buf ch) <= capacity)%nat ->
  exists ch' l,
    Processor.queuePostForProcessing ch post h = (Processor.Returned ch', h ++ l)
    /\ Processor.closed ch' = Processor.closed ch
    /\ (length (Processor.buf ch') <= capacity)%nat
    /\ (Processor.buf ch' = Processor.buf ch
        \/ Processor.closed ch = false
           /\ Processor.buf ch' = Processor.buf ch ++ [post])
    /\ Forall (fun e => is_log e = true) l.
Proof.
  intros Hlen. rewrite queuePostForProcessing_run. destruct ch as [buf cl].
  cbn [Processor.closed Processor.buf] in *. destruct cl.
  { eexists _, [_]. split; [done|]. repeat split; auto; repeat constructor. }
  rewrite <- capacity_max.
  destruct (Z.ltb_spec (Z.of_nat (length buf)) (Z.of_nat capacity)) as [Hlt|Hge].
  - eexists _, []. rewrite app_nil_r. split; [done|].
    cbn [Processor.closed Processor.buf]. repeat split; auto.
    rewrite length_app. simpl. lia.
  - eexists _, [_]. split; [done|]. repeat split; auto; repeat constructor.
Qed.

(** The theorem applied to the full queue. *)
Lemma admission_preserves_queue_invariants_witness :
  (length (Processor.buf fullChan) <= capacity)%nat
  /\ exists ch' l,
       Processor.queuePostForProcessing fullChan botPost [] = (Processor.Returned ch', l)
       /\ (length (Processor.buf ch') <= capacity)%nat.
Proof.
  assert (Hlen : (length (Processor.buf fullChan) <= capacity)%nat).
  { unfold fullChan, capacity. cbn [Processor.buf]. by rewrite length_replicate. }
  split; [exact Hlen|].
  destruct (admission_preserves_queue_invariants fullChan botPost [] Hlen)
    as (ch' & l & Hrun & _ & Hcap & _).
  exists ch', l. split; [exact Hrun | exact Hcap].
Defined.

(** X8. [stop] keeps the buffered posts and closes the queue; a worker that
    runs on the stopped queue still evaluates every buffered post, in order,
    and then returns; and a second [stop] panics. *)
Theorem stop_drains_and_is_not_repeatable
    (H : Host) (p : Processor.PostProcessor) (ch ch' : Processor.Chan) (h : Trace) :
  Processor.stop ch = Processor.Returned ch' ->
  Processor.buf ch' = Processor.buf ch
  /\ Processor.closed ch' = true
  /\ Processor.start H p ch' h
     = ((Processor.WorkerReturned, {| Processor.buf := []; Processor.closed := true |}),
        trace_of (Processor.workerLoop H p (Processor.buf ch)) h)
  /\ Processor.stop ch' = Processor.Panicked "close of closed channel".
Proof.
  unfold Processor.stop. destruct (Processor.closed ch); [discriminate|].
  intros [= <-]. cbn [Processor.buf Processor.closed]. repeat split.
  unfold Processor.start, trace_of. cbn [Processor.buf Processor.closed].
  rewrite run_bind. by destruct (Processor.workerLoop H p (Processor.buf ch) h).
Qed.

(** The theorem applied to a queue with one buffered post. *)
Lemma stop_drains_and_is_not_repeatable_witness :
  Processor.stop {| Processor.buf := [userPost]; Processor.closed := false |}
  = Processor.Returned {| Processor.buf := [userPost]; Processor.closed := true |}
  /\ Processor.stop {| Processor.buf := [userPost]; Processor.closed := true |}
     = Processor.Panicked "close of closed channel".
Proof.
  split; [reflexivity|].
  apply (stop_drains_and_is_not_repeatable workingHost theProcessor
           {| Processor.buf := [userPost]; Processor.closed := false |} _ []).
  reflexivity.
Defined.

(** ** The log entry of a flagged post *)




(** ** The verdict of a scored post, on both paths *)

Lemma violation_iff_threshold_aux thr (result : Result) :
  (severityLoop thr (map_to_list result) = true
     <-> exists c v, result !! c = Some v /\ thr <= v)
  /\ (severityLoop thr (map_to_list result) = false
     <-> forall c v, result !! c = Some v -> v < thr).
Proof.
  split; [apply severityLoop_map|].
  rewrite <- not_true_iff_false, severityLoop_map. split.
  - intros Hno c v Hc. destruct (Z.lt_ge_cases v thr) as [|Hge]; [done|].
    exfalso. apply Hno. eauto.
  - intros Hall (c & v & Hc & Hle). specialize (Hall c v Hc). lia.
Qed.


(** X10. When the provider answers with a score, the verdict of the worker
    path and of the gate is Violation if some category of the score is
    greater than or equal to the threshold of that path, and Clear
    otherwise; the provider is called once, with the text of the post. *)
Theorem verdict_of_scored_post
    (H : Host) (p : Processor.PostProcessor) (pl : Plugin.Plugin)
    (post : Post) (h : Trace) (result : Result) :
  host_ModerateText H h (Message post) = inl result ->
  (reaches_provider p post = true ->
     (verdict_of (result_of (Processor.moderatePost H p post) h) = Violation
        <-> exists category severity,
              result !! category = Some severity
              /\ Processor.thresholdValue p <= severity)
     /\ (verdict_of (result_of (Processor.moderatePost H p post) h) = Clear
        <-> forall category severity,
              result !! category = Some severity
              -> severity < Processor.thresholdValue p)
     /\ filter (fun e => is_provider_call e = true)
          (added_by (Processor.moderatePost H p post) h)
        = [EvModerateText (Message post)])
  /\ (gate_reaches_provider pl post = true ->
     (verdict_of (result_of (Plugin.moderatePost H pl post) h) = Violation
        <-> exists category severity,
              result !! category = Some severity
              /\ Plugin.thresholdValue pl <= severity)
     /\ (verdict_of (result_of (Plugin.moderatePost H pl post) h) = Clear
        <-> forall category severity,
              result !! category = Some severity
              -> severity < Plugin.thresholdValue pl)
     /\ filter (fun e => is_provider_call e = true)
          (added_by (Plugin.moderatePost H pl post) h)
        = [EvModerateText (Message post)]).
Proof.
  intros Hres.
  destruct (violation_iff_threshold_aux (Processor.thresholdValue p) result)
    as [Hpt Hpf].
  destruct (violation_iff_threshold_aux (Plugin.thresholdValue pl) result)
    as [Hgt Hgf].
  split; intros Hreach.
  - rewrite (moderatePost_scored_verdict H p post h result Hreach Hres).
    pose proof (moderatePost_run H p post h) as Hrun.
    rewrite Hreach, Hres in Hrun.
    unfold Processor.resultSeverityAboveThreshold in *.
    destruct (severityLoop (Processor.thresholdValue p) _) eqn:Hloop;
      rewrite (added_by_run _ _ _ _ Hrun).
    + split; [by rewrite <- Hpt|]. split; [|done].
      rewrite <- Hpf. split; discriminate.
    + split; [rewrite <- Hpt; split; discriminate|]. split; [|done].
      by rewrite <- Hpf.
  - rewrite (gate_moderatePost_scored_verdict H pl post h result Hreach Hres).
    destruct (gate_moderatePost_scores H pl post h Hreach) as (v & l & Hrun).
    assert (Hl : filter (fun e => is_provider_call e = true) l = []).
    { revert Hrun. unfold gate_reaches_provider in Hreach.
      apply andb_true_iff in Hreach as [[Hm Hu]%andb_true_iff Hmsg%negb_true_iff].
      unfold Plugin.moderatePost, Plugin.logFlaggedResult.
      rewrite Hm, Hu, Hmsg. simpl. rewrite run_bind, run_call. cbn [fst snd].
      rewrite Hres. destruct (Plugin.resultSeverityAboveThreshold pl result).
      - rewrite run_bind, run_emit. cbn [fst snd]. rewrite run_ret, <- app_assoc.
        intros [= _ Heq%app_inv_head]. by simplify_eq.
      - rewrite run_ret. intros [= _ Heq%app_inv_head]. by simplify_eq. }
    rewrite (added_by_run _ _ _ _ Hrun).
    rewrite filter_cons_True; [|reflexivity]. rewrite Hl.
    unfold Plugin.resultSeverityAboveThreshold in *.
    destruct (severityLoop (Plugin.thresholdValue pl) _) eqn:Hloop.
    + split; [by rewrite <- Hgt|]. split; [|done].
      rewrite <- Hgf. split; discriminate.
    + split; [rewrite <- Hgt; split; discriminate|]. split; [|done].
      by rewrite <- Hgf.
Qed.

(** The theorem applied to the scenario threshold 50, score [{"hate": 80}]. *)
Lemma verdict_of_scored_post_witness :
  host_ModerateText workingHost [] (Message userPost) = inl {["hate" := 80]}
  /\ reaches_provider theProcessor userPost = true
  /\ verdict_of (result_of (Processor.moderatePost workingHost theProcessor userPost) [])
     = Violation.
Proof.
  split; [reflexivity|]. split; [by vm_compute|].
  destruct (verdict_of_scored_post workingHost theProcessor thePlugin userPost []
              {["hate" := 80]} eq_refl) as [Hworker _].
  assert (Hreach : reaches_provider theProcessor userPost = true) by (by vm_compute).
  destruct (Hworker Hreach) as [Hiff _]. apply Hiff.
  exists "hate", 80. split; [by vm_compute | by vm_compute].
Defined.

(** ** The gate *)

(** X11. The gate lets a post through untouched and without any call or log
    entry when no moderator is set, when moderation is not for all users and
    the author is not among the target users (so with no target users nobody
    is moderated), or when the text is empty: the creation hook returns no
    replacement, the edit hook returns the new post itself. *)
Theorem gate_passes_without_scoring
    (H : Host) (pl : Plugin.Plugin) (newPost oldPost : Post) (h : Trace) :
  Plugin.moderator pl = false
  \/ (Plugin.ModerateAllUsers pl = false /\ UserId newPost ∉ Plugin.targetUsers pl)
  \/ Message newPost = "" ->
  Plugin.MessageWillBePosted H pl newPost h = ((None, ""), h)
  /\ Plugin.MessageWillBeUpdated H pl newPost oldPost h = ((Some newPost, ""), h).
Proof.
  intros Hskip.
  assert (Hg : gate_reaches_provider pl newPost = false).
  { unfold gate_reaches_provider, Plugin.shouldModerateUser.
    destruct Hskip as [-> | [[-> Hnot] | ->]]; [done| |by rewrite andb_false_r].
    rewrite bool_decide_eq_false_2 by done. by rewrite andb_false_r. }
  unfold Plugin.MessageWillBePosted, Plugin.MessageWillBeUpdated.
  by rewrite !run_bind, (gate_moderatePost_skips H pl newPost h Hg).
Qed.

(** The theorem applied to a gate without target users. *)
Lemma gate_passes_without_scoring_witness :
  (Plugin.moderator untargetedPlugin = false
   \/ (Plugin.ModerateAllUsers untargetedPlugin = false
       /\ UserId userPost ∉ Plugin.targetUsers untargetedPlugin)
   \/ Message userPost = "")
  /\ Plugin.MessageWillBePosted workingHost untargetedPlugin userPost []
     = ((None, ""), []).
Proof.
  assert (Hskip : Plugin.moderator untargetedPlugin = false
                  \/ (Plugin.ModerateAllUsers untargetedPlugin = false
                      /\ UserId userPost ∉ Plugin.targetUsers untargetedPlugin)
                  \/ Message userPost = "").
  { right; left. split; [reflexivity | simpl; set_solver]. }
  split; [exact Hskip|].
  apply (gate_passes_without_scoring workingHost untargetedPlugin
           userPost userPost [] Hskip).
Defined.

(** X12. When the scoring call of the gate fails, both hooks return a post
    that has the id, author, channel and thread of the new post and whose
    text is the notice that the moderation service is not available, with an
    empty rejection reason, after one provider call and one error log entry
    that carries the provider's error. *)
Theorem gate_redacts_when_provider_fails
    (H : Host) (pl : Plugin.Plugin) (newPost oldPost : Post) (h : Trace)
    (err : string) :
  let redacted :=
    {| Id := Id newPost; UserId := UserId newPost;
       ChannelId := ChannelId newPost; RootId := RootId newPost;
       Message :=
         "_This post has been redacted by the moderation plugin: moderation service is not available_" |} in
  let added := [EvModerateText (Message newPost);
                EvLog LevelError "Text moderation failed" [("err", VString err)]] in
  gate_reaches_provider pl newPost = true ->
  host_ModerateText H h (Message newPost) = inr err ->
  Plugin.MessageWillBePosted H pl newPost h = ((Some redacted, ""), h ++ added)
  /\ Plugin.MessageWillBeUpdated H pl newPost oldPost h = ((Some redacted, ""), h ++ added).
Proof.
  intros redacted added Hreach Herr.
  assert (Hmod : Plugin.moderatePost H pl newPost h
                 = (Some ErrModerationUnavailable, h ++ added)).
  { unfold gate_reaches_provider in Hreach.
    apply andb_true_iff in Hreach as [[Hm Hu]%andb_true_iff Hmsg%negb_true_iff].
    unfold Plugin.moderatePost. rewrite Hm, Hu, Hmsg. simpl.
    rewrite run_bind, run_call. cbn [fst snd]. rewrite Herr.
    rewrite run_bind, run_emit. cbn [fst snd]. by rewrite run_ret, <- app_assoc. }
  unfold Plugin.MessageWillBePosted, Plugin.MessageWillBeUpdated.
  by rewrite !run_bind, Hmod.
Qed.

(** The theorem applied to a provider that is down. *)
Lemma gate_redacts_when_provider_fails_witness :
  gate_reaches_provider thePlugin userPost = true
  /\ result_of (Plugin.MessageWillBePosted providerDownHost thePlugin userPost) []
     = (Some {| Id := "p1"; UserId := "alice"; ChannelId := "town-square";
                RootId := "p0";
                Message :=
                  "_This post has been redacted by the moderation plugin: moderation service is not available_" |},
        "").
Proof.
  split; [by vm_compute|].
  unfold result_of.
  rewrite (proj1 (gate_redacts_when_provider_fails providerDownHost thePlugin
                    userPost userPost [] "context deadline exceeded"
                    eq_refl eq_refl)).
  reflexivity.
Defined.

(** ** Activation *)

(** X13. Activation succeeds exactly when moderation is disabled, or the
    moderator type is [azure], the Azure moderator can be made and the
    threshold can be read.  A failed activation leaves the threshold and the
    target users as they were, activation never changes whether all users are
    moderated, and all it does besides is write log entries. *)
Theorem activation_succeeds_iff
    (azureNew : string -> string -> option string)
    (config : Plugin.configuration) (p : Plugin.Plugin) (h : Trace) :
  let r := result_of (Plugin.OnActivate azureNew config p) h in
  (r.2 = None
     <-> Plugin.Enabled config = false
         \/ (Plugin.ModeratorType config = "azure"
             /\ azureNew (Plugin.Endpoint config) (Plugin.APIKey config) = None
             /\ exists t, Plugin.ThresholdValue config = inl t))
  /\ (r.2 = None
      \/ (Plugin.thresholdValue r.1 = Plugin.thresholdValue p
          /\ Plugin.targetUsers r.1 = Plugin.targetUsers p))
  /\ Plugin.ModerateAllUsers r.1 = Plugin.ModerateAllUsers p
  /\ Forall (fun e => is_log e = true) (added_by (Plugin.OnActivate azureNew config p) h).
Proof.
  intros r. subst r.
  unfold result_of, added_by, trace_of, Plugin.OnActivate, Plugin.initModerator.
  destruct (Plugin.Enabled config); cbn [negb];
    [destruct (String.eqb_spec (Plugin.ModeratorType config) "azure") as [Ht|Ht];
     [destruct (azureNew _ _) as [err|];
      [|destruct (Plugin.ThresholdValue config) as [t|err]]|]|];
    repeat (rewrite ?run_bind, ?run_emit, ?run_ret; cbn [fst snd]);
    rewrite <- ?app_assoc, ?drop_app_length, ?drop_all;
    (split; [|split; [|split; [done | repeat constructor]]]).
  all: try (by left). all: try (by right).
  all: try (split; [done|]; intros [?|(? & ? & ? & ?)]; done).
  - split; [|done]. intros _. right. eauto.
  - split; [|done]. intros _. by left.
Qed.

(** The theorem applied to a configuration whose threshold cannot be read:
    activation fails and threshold and targets are untouched. *)
Lemma activation_succeeds_iff_witness :
  (result_of (Plugin.OnActivate azureNewOk badThresholdConfiguration thePlugin) []).2
  <> None
  /\ Plugin.thresholdValue
       (result_of (Plugin.OnActivate azureNewOk badThresholdConfiguration thePlugin) []).1
     = Plugin.thresholdValue thePlugin.
Proof.
  destruct (activation_succeeds_iff azureNewOk badThresholdConfiguration thePlugin [])
    as (Hiff & Hkeep & _).
  assert (Hfail : (result_of (Plugin.OnActivate azureNewOk badThresholdConfiguration
                                thePlugin) []).2 <> None).
  { intros Hnone. apply Hiff in Hnone as [Hoff|(_ & _ & t & Ht)]; discriminate. }
  split; [exact Hfail|]. destruct Hkeep as [Hnone|[Hthr _]]; [by destruct Hfail | exact Hthr].
Defined.

(** X14. After an activation with moderation disabled, which succeeds, the
    gate lets every post through untouched and never calls the scoring
    provider, whatever moderator, threshold and targets were set before. *)
Theorem disabled_activation_opens_gate
    (azureNew : string -> string -> option string)
    (config : Plugin.configuration) (p : Plugin.Plugin) (H : Host)
    (newPost oldPost : Post) (h h' : Trace) :
  Plugin.Enabled config = false ->
  let r := result_of (Plugin.OnActivate azureNew config p) h in
  r.2 = None
  /\ Plugin.MessageWillBePosted H r.1 newPost h' = ((None, ""), h')
  /\ Plugin.MessageWillBeUpdated H r.1 newPost oldPost h' = ((Some newPost, ""), h').
Proof.
  intros Hoff r.
  assert (Hr : r = (Plugin.withModerator false p, None)).
  { unfold r, result_of, Plugin.OnActivate, Plugin.initModerator. rewrite Hoff.
    cbn [negb]. by repeat (rewrite ?run_bind, ?run_emit, ?run_ret; cbn [fst snd]). }
  rewrite Hr. cbn [fst snd]. split; [done|].
  assert (Hg : gate_reaches_provider (Plugin.withModerator false p) newPost = false)
    by done.
  unfold Plugin.MessageWillBePosted, Plugin.MessageWillBeUpdated.
  by rewrite !run_bind, (gate_moderatePost_skips H _ newPost h' Hg).
Qed.

(** The theorem applied to a plugin that had a moderator. *)
Lemma disabled_activation_opens_gate_witness :
  Plugin.Enabled disabledConfiguration = false
  /\ Plugin.MessageWillBePosted workingHost
       (result_of (Plugin.OnActivate azureNewOk disabledConfiguration thePlugin) []).1
       userPost []
     = ((None, ""), []).
Proof.
  split; [reflexivity|].
  apply (disabled_activation_opens_gate azureNewOk disabledConfiguration thePlugin
           workingHost userPost userPost [] [] eq_refl).
Defined.

(** X15. After a successful activation with moderation enabled, the gate
    judges by the configuration: a moderator is set, the threshold is the one
    that was read, and a post reaches the scoring provider exactly when it has
    a text and either all users are moderated or its author is one of the
    configured target users. *)
Theorem activated_gate_follows_configuration
    (azureNew : string -> string -> option string)
    (config : Plugin.configuration) (p : Plugin.Plugin) (h : Trace) (t : Z) :
  Plugin.Enabled config = true ->
  Plugin.ModeratorType config = "azure" ->
  azureNew (Plugin.Endpoint config) (Plugin.APIKey config) = None ->
  Plugin.ThresholdValue config = inl t ->
  let r := result_of (Plugin.OnActivate azureNew config p) h in
  r.2 = None
  /\ Plugin.moderator r.1 = true
  /\ Plugin.thresholdValue r.1 = t
  /\ Plugin.targetUsers r.1 = Plugin.ModerationTargetsList config
  /\ forall post,
       gate_reaches_provider r.1 post = true
       <-> Message post <> ""
           /\ (Plugin.ModerateAllUsers p = true
               \/ UserId post ∈ Plugin.ModerationTargetsList config).
Proof.
  intros Hon Htype Hnew Hthr r.
  assert (Hr : r = (Plugin.withTargets (Plugin.ModerationTargetsList config)
                      (Plugin.withThreshold t (Plugin.withModerator true p)), None)).
  { unfold r, result_of, Plugin.OnActivate, Plugin.initModerator.
    rewrite Hon, Htype, Hnew, Hthr. cbn [negb String.eqb].
    by repeat (rewrite ?run_bind, ?run_emit, ?run_ret; cbn [fst snd]). }
  rewrite Hr. cbn [fst snd]. do 4 (split; [done|]).
  intros post. unfold gate_reaches_provider, Plugin.shouldModerateUser.
  cbn [Plugin.moderator Plugin.ModerateAllUsers Plugin.targetUsers
       Plugin.withTargets Plugin.withThreshold Plugin.withModerator andb].
  rewrite andb_true_iff, negb_true_iff, String.eqb_neq.
  destruct (Plugin.ModerateAllUsers p).
  - split; [intros [_ ?]; auto | intros [? _]; auto].
  - rewrite bool_decide_eq_true. split; [intros [? ?]; auto|].
    intros [? [?|?]]; [done | auto].
Qed.

(** The theorem applied to a complete configuration. *)
Lemma activated_gate_follows_configuration_witness :
  Plugin.Enabled azureConfiguration = true
  /\ Plugin.ModeratorType azureConfiguration = "azure"
  /\ Plugin.ThresholdValue azureConfiguration = inl 4
  /\ Plugin.thresholdValue
       (result_of (Plugin.OnActivate azureNewOk azureConfiguration thePlugin) []).1 = 4.
Proof.
  split; [reflexivity|]. split; [reflexivity|]. split; [reflexivity|].
  apply (activated_gate_follows_configuration azureNewOk azureConfiguration
           thePlugin [] 4 eq_refl eq_refl eq_refl eq_refl).
Defined.

(** ** Trimming *)

Section TrimLemmas.

Variable isWhite : Ascii.ascii -> bool.

Local Abbreviation trimStart := (Webapp.trimStart isWhite).
Local Abbreviation trimEnd := (Webapp.trimEnd isWhite).
Local Abbreviation trim := (Webapp.trim isWhite).

Lemma trimEnd_cons c rest :
  trimEnd (String c rest)
  = match trimEnd rest with
    | EmptyString => if isWhite c then EmptyString else String c EmptyString
    | t => String c t
    end.
Proof. reflexivity. Qed.

Lemma trimStart_head s :
  trimStart s = EmptyString
  \/ exists c rest, trimStart s = String c rest /\ isWhite c = false.
Proof.
  induction s as [|c rest IH]; [by left|]. simpl.
  destruct (isWhite c) eqn:Hc; [done|]. right. by exists c, rest.
Qed.

Lemma trimStart_fixed c rest :
  isWhite c = false -> trimStart (String c rest) = String c rest.
Proof. intros Hc. simpl. by rewrite Hc. Qed.

Lemma trimEnd_keeps_head c rest :
  isWhite c = false -> exists t, trimEnd (String c rest) = String c t.
Proof.
  intros Hc. rewrite trimEnd_cons. destruct (trimEnd rest).
  - rewrite Hc. by eexists.
  - by eexists.
Qed.

Lemma trimEnd_idem s : trimEnd (trimEnd s) = trimEnd s.
Proof.
  induction s as [|c rest IH]; [done|]. rewrite trimEnd_cons.
  destruct (trimEnd rest) as [|d t] eqn:Ht.
  - destruct (isWhite c) eqn:Hc; [done|]. rewrite trimEnd_cons. simpl. by rewrite Hc.
  - rewrite trimEnd_cons, IH. done.
Qed.

Lemma trim_idem s : trim (trim s) = trim s.
Proof.
  unfold Webapp.trim.
  destruct (trimStart_head s) as [->|(c & rest & -> & Hc)]; [done|].
  destruct (trimEnd_keeps_head c rest Hc) as [t Ht].
  rewrite Ht, (trimStart_fixed c t Hc), <- Ht. apply trimEnd_idem.
Qed.

(** A trimmed string is empty exactly when the string is all white space. *)
Lemma trimEnd_empty s : trimEnd s = EmptyString <-> all_chars isWhite s = true.
Proof.
  induction s as [|c rest IH]; [done|]. rewrite trimEnd_cons. simpl.
  destruct (trimEnd rest) as [|d t].
  - destruct (isWhite c); simpl; [by rewrite <- IH | by split].
  - split; [discriminate|]. rewrite andb_true_iff. intros [_ Hall].
    by apply IH in Hall.
Qed.

Lemma trim_empty s : trim s = EmptyString <-> all_chars isWhite s = true.
Proof.
  unfold Webapp.trim. rewrite trimEnd_empty.
  induction s as [|c rest IH]; [done|]. simpl.
  destruct (isWhite c) eqn:Hc; [done|]. simpl. by rewrite Hc.
Qed.

(** Trimming removes characters only. *)
Lemma trimStart_contains c s :
  contains c s = false -> contains c (trimStart s) = false.
Proof.
  induction s as [|d rest IH]; [done|]. simpl.
  intros [Hd Hrest]%orb_false_iff. destruct (isWhite d); [by apply IH|].
  simpl. by rewrite Hd, Hrest.
Qed.

Lemma trimEnd_contains c s :
  contains c s = false -> contains c (trimEnd s) = false.
Proof.
  induction s as [|d rest IH]; [done|]. rewrite trimEnd_cons. simpl.
  intros [Hd Hrest]%orb_false_iff. specialize (IH Hrest).
  destruct (trimEnd rest) as [|e t].
  - destruct (isWhite d); [done|]. simpl. by rewrite Hd.
  - cbn [contains] in *. by rewrite Hd, IH.
Qed.

Lemma trim_contains c s : contains c s = false -> contains c (trim s) = false.
Proof. intros Hc. by apply trimEnd_contains, trimStart_contains. Qed.

End TrimLemmas.

(** ** [strings.TrimSpace] *)

Section StripLemmas.

Variable sp1 : Ascii.ascii -> bool.
Variable sp2 : Ascii.ascii -> Ascii.ascii -> bool.
Variable sp3 : Ascii.ascii -> Ascii.ascii -> Ascii.ascii -> bool.

Local Abbreviation strip := (API.strip sp1 sp2 sp3).
Local Abbreviation starts := (starts_space sp1 sp2 sp3).

Lemma strip_clean l : starts l = false -> strip l = l.
Proof.
  destruct l as [|c1 [|c2 [|c3 r3]]]; simpl; [done|..].
  - rewrite orb_false_r. by intros ->.
  - rewrite orb_false_r. intros [-> ->]%orb_false_iff. done.
  - intros [-> [-> ->]%orb_false_iff]%orb_false_iff. done.
Qed.

(** What is stripped is a front part. *)
Lemma strip_suffix l : exists pre, l = pre ++ strip l.
Proof.
  remember (length l) as n eqn:Hn. revert l Hn.
  induction n as [n IH] using lt_wf_ind. intros l ->.
  destruct l as [|c1 r1]; [by exists []|]. simpl.
  destruct (sp1 c1).
  { destruct (IH (length r1) ltac:(simpl; lia) r1 eq_refl) as [pre Hpre].
    exists (c1 :: pre). simpl. by rewrite <- Hpre. }
  destruct r1 as [|c2 r2]; [by exists []|].
  destruct (sp2 c1 c2).
  { destruct (IH (length r2) ltac:(simpl; lia) r2 eq_refl) as [pre Hpre].
    exists (c1 :: c2 :: pre). simpl. by rewrite <- Hpre. }
  destruct r2 as [|c3 r3]; [by exists []|].
  destruct (sp3 c1 c2 c3); [|by exists []].
  destruct (IH (length r3) ltac:(simpl; lia) r3 eq_refl) as [pre Hpre].
  exists (c1 :: c2 :: c3 :: pre). simpl. by rewrite <- Hpre.
Qed.

Lemma strip_starts l : starts (strip l) = false.
Proof.
  remember (length l) as n eqn:Hn. revert l Hn.
  induction n as [n IH] using lt_wf_ind. intros l ->.
  destruct l as [|c1 r1]; [done|]. cbn [API.strip].
  destruct (sp1 c1) eqn:H1.
  { by apply (IH (length r1) ltac:(simpl; lia)). }
  destruct r1 as [|c2 r2]; [simpl; by rewrite H1|].
  destruct (sp2 c1 c2) eqn:H2.
  { by apply (IH (length r2) ltac:(simpl; lia)). }
  destruct r2 as [|c3 r3]; [simpl; by rewrite H1, H2|].
  destruct (sp3 c1 c2 c3) eqn:H3.
  { by apply (IH (length r3) ltac:(simpl; lia)). }
  simpl. by rewrite H1, H2, H3.
Qed.

Lemma strip_idem l : strip (strip l) = strip l.
Proof. apply strip_clean, strip_starts. Qed.

Lemma starts_app u x : starts u = true -> starts (u ++ x) = true.
Proof.
  destruct u as [|c1 [|c2 [|c3 r3]]]; simpl; [done|..].
  - rewrite orb_false_r. by intros ->.
  - rewrite orb_false_r. intros [->| ->]%orb_true_iff; [done|].
    destruct x; simpl; by rewrite ?orb_true_r.
  - intros [->|[->| ->]%orb_true_iff]%orb_true_iff; by rewrite ?orb_true_r.
Qed.

End StripLemmas.

Lemma trimRight_prefix l : exists post, l = API.trimRight l ++ post.
Proof.
  unfold API.trimRight.
  destruct (strip_suffix API.isSpace (fun c2 c1 => API.isSpace2 c1 c2)
              (fun c3 c2 c1 => API.isSpace3 c1 c2 c3) (rev l)) as [pre Hpre].
  exists (rev pre). rewrite <- rev_app_distr, <- Hpre. by rewrite rev_involutive.
Qed.

Lemma trimRight_idem l : API.trimRight (API.trimRight l) = API.trimRight l.
Proof. unfold API.trimRight. by rewrite rev_involutive, strip_idem. Qed.

(** Trimming the end of bytes with a clean front leaves the front clean. *)
Lemma trimLeft_trimRight l :
  API.trimLeft (API.trimRight (API.trimLeft l)) = API.trimRight (API.trimLeft l).
Proof.
  unfold API.trimLeft at 1. apply strip_clean.
  destruct (starts_space _ _ _ (API.trimRight _)) eqn:Hs; [|done].
  destruct (trimRight_prefix (API.trimLeft l)) as [post Hpost].
  apply (starts_app _ _ _ _ post) in Hs. rewrite <- Hpost in Hs.
  unfold API.trimLeft in Hs. by rewrite strip_starts in Hs.
Qed.

(** Trimming twice is trimming once: a trimmed string has no white space
    rune at its front and none at its end. *)
Lemma TrimSpace_idem s : API.TrimSpace (API.TrimSpace s) = API.TrimSpace s.
Proof.
  unfold API.TrimSpace. rewrite String.list_ascii_of_string_of_list_ascii.
  by rewrite trimLeft_trimRight, trimRight_idem.
Qed.


(** ** The HTTP API *)

(** Unfold a handler run and read off what it added to the history. *)
Ltac run_handler :=
  unfold added_by, trace_of, result_of;
  repeat (rewrite ?run_bind, ?run_call, ?run_emit, ?run_ret; cbn [fst snd]);
  rewrite <- ?app_assoc, ?drop_app_length, ?drop_all.

Lemma cleanPath_route :
  API.cleanPath "/api/v1/groups/search" = "/api/v1/groups/search".
Proof. reflexivity. Qed.

(** Split on whether the path is the search route; on the route the cleaning
    changes nothing. *)
Ltac on_route r :=
  let Hp := fresh "Hp" in
  destruct (String.eqb_spec (API.Path r) "/api/v1/groups/search") as [Hp|Hp];
  [rewrite ?Hp, ?cleanPath_route, ?String.eqb_refl; cbn [negb andb]
  |cbn [negb andb];
   destruct (negb (String.eqb (API.cleanPath (API.Path r)) (API.Path r)))].

(** X16. The store is searched at most once per request, and only with the
    trimmed [prefix] parameter, which is then not empty and has no white
    space left at either end, and only for a request that carries a user id,
    on the search route, with the GET method. *)
Theorem store_sees_trimmed_prefix
    (H : Host) (w : API.ResponseWriter) (r : API.Request) (h : Trace) :
  let q := API.TrimSpace (API.QueryPrefix r) in
  let searches :=
    filter (fun e => is_search e = true) (added_by (API.ServeHTTP H w r) h) in
  if search_runs r
  then searches = [EvSearchLDAPGroupsByPrefix q] /\ q <> "" /\ API.TrimSpace q = q
  else searches = [].
Proof.
  intros q searches. subst searches.
  unfold search_runs, API.ServeHTTP, API.router, API.searchLDAPGroups. fold q.
  destruct (String.eqb (API.MattermostUserID r) ""); cbn [negb andb];
    [by run_handler|].
  on_route r; [|by run_handler..].
  destruct (String.eqb (API.Method r) "GET"); cbn [andb]; [|by run_handler].
  destruct (String.eqb_spec q "") as [Hq|Hq]; cbn [negb]; [by run_handler|].
  split; [|split; [done|]].
  - run_handler.
    destruct (host_SearchLDAPGroupsByPrefix H _ q) as [groups|err];
      [destruct (host_encodeJSON H groups)|]; by run_handler.
  - unfold q. apply TrimSpace_idem.
Qed.

(** X17. A request without a user id is answered 401 with the plain text
    [Not authorized]; the permission is not looked up and the store is not
    searched. *)
Theorem unauthenticated_request_is_refused
    (H : Host) (r : API.Request) (h : Trace) :
  API.MattermostUserID r = "" ->
  let w := result_of (API.ServeHTTP H API.newResponseWriter r) h in
  API.status w = Some API.StatusUnauthorized
  /\ API.body w = "Not authorized" +:+ newline
  /\ API.sentContentType w = Some "text/plain; charset=utf-8"
  /\ added_by (API.ServeHTTP H API.newResponseWriter r) h = [].
Proof.
  intros Hu w. subst w. unfold API.ServeHTTP. rewrite Hu. cbn [String.eqb].
  run_handler. done.
Qed.

(** The theorem applied to a request without the user header. *)
Lemma unauthenticated_request_is_refused_witness :
  API.MattermostUserID
    {| API.Method := "GET"; API.Path := "/api/v1/groups/search";
       API.MattermostUserID := ""; API.QueryPrefix := "dev" |} = ""
  /\ API.status
       (result_of (API.ServeHTTP workingHost API.newResponseWriter
                     {| API.Method := "GET"; API.Path := "/api/v1/groups/search";
                        API.MattermostUserID := ""; API.QueryPrefix := "dev" |}) [])
     = Some API.StatusUnauthorized.
Proof.
  split; [reflexivity|].
  apply (unauthenticated_request_is_refused workingHost
           {| API.Method := "GET"; API.Path := "/api/v1/groups/search";
              API.MattermostUserID := ""; API.QueryPrefix := "dev" |} [] eq_refl).
Defined.

(** X18. A request of a user without the system-admin permission is always
    answered with status 401 and a body that starts with [Not authorized],
    sent as plain text, whatever the route, the method, the prefix and the
    outcome of the search are: nothing the router does afterwards changes the
    status line. *)
Theorem non_admin_status_is_unauthorized
    (H : Host) (r : API.Request) (h : Trace) :
  API.MattermostUserID r <> "" ->
  host_HasPermissionTo H h (API.MattermostUserID r) API.PermissionManageSystem = false ->
  let w := result_of (API.ServeHTTP H API.newResponseWriter r) h in
  API.status w = Some API.StatusUnauthorized
  /\ API.sentContentType w = Some "text/plain; charset=utf-8"
  /\ exists rest, API.body w = "Not authorized" +:+ newline +:+ rest.
Proof.
  intros Hu%String.eqb_neq Hperm w. subst w.
  unfold API.ServeHTTP, API.router, API.searchLDAPGroups. rewrite Hu.
  run_handler. rewrite Hperm. cbn [negb].
  on_route r; [|run_handler; split; [done|]; split; [done|]; by eexists..].
  destruct (String.eqb (API.Method r) "GET");
    [|run_handler; split; [done|]; split; [done|]; by eexists].
  destruct (String.eqb (API.TrimSpace (API.QueryPrefix r)) "");
    [run_handler; split; [done|]; split; [done|]; by eexists|].
  run_handler.
  destruct (host_SearchLDAPGroupsByPrefix H _ _) as [groups|err];
    [destruct (host_encodeJSON H groups)|];
    run_handler; (split; [done|]; split; [done|]; by eexists).
Qed.

(** The theorem applied to the search of a user who is no admin. *)
Lemma non_admin_status_is_unauthorized_witness :
  API.MattermostUserID nonAdminRequest <> ""
  /\ host_HasPermissionTo noAdminHost [] (API.MattermostUserID nonAdminRequest)
       API.PermissionManageSystem = false
  /\ API.status (result_of (API.ServeHTTP noAdminHost API.newResponseWriter
                              nonAdminRequest) [])
     = Some API.StatusUnauthorized.
Proof.
  split; [discriminate|]. split; [reflexivity|].
  apply (non_admin_status_is_unauthorized noAdminHost nonAdminRequest []);
    [discriminate | reflexivity].
Defined.

(** X19. What a system admin is answered: 301 when the path is not in its
    canonical form (doubled slashes, [.] or [..] elements, no leading slash,
    the empty path); 404 on any canonical path but the search route; 405 on
    the search route with another method than GET; 400 with
    [missing search prefix] when the trimmed prefix is empty; all four
    without a search.  When the search fails: 500 with
    [failed to search groups] and one error log entry.  Otherwise status 200
    with content type [application/json] and the encoded groups followed by
    a line break as the body.  If the encoding itself fails, the handler logs
    the failure and commits neither a status nor a body. *)
Theorem admin_request_outcomes
    (H : Host) (r : API.Request) (h : Trace) :
  API.MattermostUserID r <> "" ->
  host_HasPermissionTo H h (API.MattermostUserID r) API.PermissionManageSystem = true ->
  let check := EvHasPermissionTo (API.MattermostUserID r) API.PermissionManageSystem in
  let q := API.TrimSpace (API.QueryPrefix r) in
  let w := result_of (API.ServeHTTP H API.newResponseWriter r) h in
  let added := added_by (API.ServeHTTP H API.newResponseWriter r) h in
  if negb (String.eqb (API.cleanPath (API.Path r)) (API.Path r)) then
    API.status w = Some API.StatusMovedPermanently /\ API.body w = ""
    /\ added = [check]
  else if negb (String.eqb (API.Path r) "/api/v1/groups/search") then
    API.status w = Some API.StatusNotFound
    /\ API.body w = "404 page not found" +:+ newline /\ added = [check]
  else if negb (String.eqb (API.Method r) "GET") then
    API.status w = Some API.StatusMethodNotAllowed /\ API.body w = ""
    /\ added = [check]
  else if String.eqb q "" then
    API.status w = Some API.StatusBadRequest
    /\ API.body w = "missing search prefix" +:+ newline /\ added = [check]
  else
    match host_SearchLDAPGroupsByPrefix H (h ++ [check]) q with
    | inr err =>
        API.status w = Some API.StatusInternalServerError
        /\ API.body w = "failed to search groups" +:+ newline
        /\ added = [check; EvSearchLDAPGroupsByPrefix q;
                    EvLog LevelError "failed to search groups" [("error", VString err)]]
    | inl groups =>
        match host_encodeJSON H groups with
        | inl json =>
            API.status w = Some API.StatusOK
            /\ API.sentContentType w = Some "application/json"
            /\ API.body w = json +:+ newline
            /\ added = [check; EvSearchLDAPGroupsByPrefix q]
        | inr err =>
            API.status w = None /\ API.body w = ""
            /\ added = [check; EvSearchLDAPGroupsByPrefix q;
                        EvLog LevelError "failed to write http response"
                          [("error", VString err)]]
        end
    end.
Proof.
  intros Hu%String.eqb_neq Hperm check q w added. subst w added.
  unfold API.ServeHTTP, API.router, API.searchLDAPGroups. rewrite Hu. fold q.
  run_handler. rewrite Hperm. cbn [negb].
  destruct (negb (String.eqb (API.cleanPath (API.Path r)) (API.Path r)));
    [by run_handler|].
  destruct (String.eqb (API.Path r) "/api/v1/groups/search"); cbn [negb];
    [|by run_handler].
  destruct (String.eqb (API.Method r) "GET"); cbn [negb]; [|by run_handler].
  destruct (String.eqb q ""); [by run_handler|].
  run_handler. fold check.
  destruct (host_SearchLDAPGroupsByPrefix H (h ++ [check]) q) as [groups|err];
    [destruct (host_encodeJSON H groups)|]; by run_handler.
Qed.

(** The theorem applied to an admin who searches for [dev] with blanks
    around it. *)
Lemma admin_request_outcomes_witness :
  API.MattermostUserID adminRequest <> ""
  /\ host_HasPermissionTo workingHost [] (API.MattermostUserID adminRequest)
       API.PermissionManageSystem = true
  /\ API.status (result_of (API.ServeHTTP workingHost API.newResponseWriter
                              adminRequest) []) = Some API.StatusOK
  /\ added_by (API.ServeHTTP workingHost API.newResponseWriter adminRequest) []
     = [EvHasPermissionTo "root" API.PermissionManageSystem;
        EvSearchLDAPGroupsByPrefix "dev"].
Proof.
  split; [discriminate|]. split; [reflexivity|].
  assert (Hu : API.MattermostUserID adminRequest <> "") by discriminate.
  pose proof (admin_request_outcomes workingHost adminRequest [] Hu eq_refl) as Hout.
  cbv zeta in Hout.
  change (negb (String.eqb (API.cleanPath (API.Path adminRequest))
                  (API.Path adminRequest))) with false in Hout.
  change (negb (String.eqb (API.Path adminRequest) "/api/v1/groups/search"))
    with false in Hout.
  change (negb (String.eqb (API.Method adminRequest) "GET")) with false in Hout.
  change (String.eqb (API.TrimSpace (API.QueryPrefix adminRequest)) "")
    with false in Hout.
  change (API.TrimSpace (API.QueryPrefix adminRequest)) with "dev" in Hout.
  cbn [workingHost host_SearchLDAPGroupsByPrefix host_encodeJSON] in Hout.
  destruct Hout as (Hs & _ & _ & Ha). split; [exact Hs | exact Ha].
Defined.



(** ** The group settings of the web client *)

Lemma split_not_nil sep s : Webapp.split sep s <> [].
Proof.
  induction s as [|c rest IH]; [done|]. simpl.
  destruct (Webapp.split sep rest); [done|]. by destruct (Ascii.eqb c sep).
Qed.

Lemma split_no_sep sep s : contains sep s = false -> Webapp.split sep s = [s].
Proof.
  induction s as [|c rest IH]; [done|]. simpl.
  intros [Hc Hrest]%orb_false_iff. by rewrite (IH Hrest), Hc.
Qed.

Lemma split_app_sep sep x y :
  contains sep x = false ->
  Webapp.split sep (x +:+ String sep y) = x :: Webapp.split sep y.
Proof.
  induction x as [|c rest IH]; simpl.
  - intros _. pose proof (split_not_nil sep y) as Hne.
    destruct (Webapp.split sep y); [done|]. by rewrite Ascii.eqb_refl.
  - intros [Hc Hrest]%orb_false_iff. by rewrite (IH Hrest), Hc.
Qed.

Lemma split_pieces sep s :
  Forall (fun piece => contains sep piece = false) (Webapp.split sep s).
Proof.
  induction s as [|c rest IH]; simpl; [by repeat constructor|].
  pose proof (split_not_nil sep rest) as Hne.
  destruct (Webapp.split sep rest) as [|piece pieces]; [done|].
  apply Forall_cons in IH as [Hp Hps].
  destruct (Ascii.eqb c sep) eqn:Hc.
  - by repeat constructor.
  - constructor; [|done]. simpl. by rewrite Hc, Hp.
Qed.

Lemma split_join ids :
  ids <> [] ->
  Forall (fun id => contains Webapp.comma id = false) ids ->
  Webapp.split Webapp.comma (Webapp.join "," ids) = ids.
Proof.
  induction ids as [|id rest IH]; [done|]. intros _ [Hid Hrest]%Forall_cons.
  destruct rest as [|id' rest'].
  - by apply split_no_sep.
  - change (Webapp.join "," (id :: id' :: rest'))
      with (id +:+ String Webapp.comma (Webapp.join "," (id' :: rest'))).
    rewrite split_app_sep by done. by rewrite IH.
Qed.

Lemma join_truthy id rest :
  id <> "" -> Webapp.truthy (Webapp.join "," (id :: rest)) = true.
Proof.
  intros Hid. destruct id as [|c id']; [done|]. by destruct rest.
Qed.

Lemma initializeGroups_join isWhite ids :
  Forall (clean_id isWhite) ids ->
  Webapp.initializeGroups isWhite (Webapp.join "," ids) = ids.
Proof.
  intros Hclean. destruct ids as [|id rest]; [done|].
  unfold Webapp.initializeGroups.
  rewrite join_truthy by (by apply Forall_cons in Hclean as [[? _] _]).
  rewrite split_join; [|done|].
  2:{ eapply Forall_impl; [exact Hclean|]. by intros ? (_ & ? & _). }
  assert (Hfix : forall l, Forall (clean_id isWhite) l ->
            filter (fun id => Webapp.truthy id = true) (Webapp.trim isWhite <$> l) = l).
  { induction 1 as [|x l (Hne & _ & Htrim) _ IH]; [done|].
    rewrite fmap_cons, Htrim, filter_cons_True, IH; [done|].
    unfold Webapp.truthy. by apply negb_true_iff, String.eqb_neq. }
  rewrite (Hfix _ Hclean). done.
Qed.

(** X21. Round trip of the setting: for ids that are not empty, contain no
    comma and have no white space at their ends, reading back the ids joined
    with commas gives the same ids, in the same order; a component mounted
    with the joined value shows exactly these groups, and writing them out
    again gives the same value. *)
Theorem group_ids_round_trip
    (isWhite : Ascii.ascii -> bool) (ids : list string) :
  Forall (clean_id isWhite) ids ->
  let value := Webapp.join "," ids in
  Webapp.initializeGroups isWhite value = ids
  /\ Webapp.stateGroups (Webapp.mount isWhite value) = ids
  /\ Webapp.join "," (Webapp.initializeGroups isWhite value) = value.
Proof.
  intros Hclean value.
  assert (Hback : Webapp.initializeGroups isWhite value = ids)
    by (by apply initializeGroups_join).
  split; [exact Hback|]. split.
  - unfold Webapp.mount. cbn [Webapp.stateGroups]. exact Hback.
  - by rewrite Hback.
Qed.

(** The theorem applied to two ids. *)
Lemma group_ids_round_trip_witness :
  Forall (clean_id API.isSpace) ["g1"; "g2"]
  /\ Webapp.initializeGroups API.isSpace "g1,g2" = ["g1"; "g2"].
Proof.
  assert (Hclean : Forall (clean_id API.isSpace) ["g1"; "g2"])
    by (repeat constructor; discriminate).
  split; [exact Hclean|].
  exact (proj1 (group_ids_round_trip API.isSpace ["g1"; "g2"] Hclean)).
Defined.

Lemma initializeGroups_clean isWhite value :
  Forall (clean_id isWhite) (Webapp.initializeGroups isWhite value).
Proof.
  unfold Webapp.initializeGroups. destruct (Webapp.truthy value); [|constructor].
  set (ids := filter _ _). destruct (0 <? length ids)%nat; [|constructor].
  apply Forall_forall. intros id [Hne Hin]%list_elem_of_filter.
  apply list_elem_of_fmap in Hin as (piece & -> & Hpiece).
  pose proof (split_pieces Webapp.comma value) as Hall.
  rewrite Forall_forall in Hall. specialize (Hall piece Hpiece).
  split; [|split].
  - unfold Webapp.truthy in Hne. by apply negb_true_iff, String.eqb_neq in Hne.
  - by apply trim_contains.
  - apply trim_idem.
Qed.

(** X22. Whatever the stored value is, the ids read from it are not empty,
    contain no comma and are trimmed; so writing them back joined with commas
    and reading again changes nothing, and a value that is empty or holds
    only commas and white space reads as no group at all. *)
Theorem stored_value_normal_form
    (isWhite : Ascii.ascii -> bool) (value : string) :
  let ids := Webapp.initializeGroups isWhite value in
  Forall (clean_id isWhite) ids
  /\ Webapp.initializeGroups isWhite (Webapp.join "," ids) = ids
  /\ (if all_chars (fun c => isWhite c || Ascii.eqb c Webapp.comma) value
      then ids = [] else True).
Proof.
  intros ids. split; [apply initializeGroups_clean|].
  split; [apply initializeGroups_join, initializeGroups_clean|].
  destruct (all_chars _ value) eqn:Hall; [|done].
  unfold ids, Webapp.initializeGroups. destruct (Webapp.truthy value); [|done].
  assert (Hnone : filter (fun id => Webapp.truthy id = true)
                    (Webapp.trim isWhite <$> Webapp.split Webapp.comma value) = []).
  { clear ids. induction value as [|c rest IH]; [|simpl in Hall].
    { simpl. by rewrite filter_cons_False by (by intros ?). }
    apply andb_true_iff in Hall as [Hc Hrest]. specialize (IH Hrest).
    simpl. pose proof (split_not_nil Webapp.comma rest) as Hne.
    destruct (Webapp.split Webapp.comma rest) as [|piece pieces]; [done|].
    rewrite fmap_cons in IH.
    destruct (Ascii.eqb c Webapp.comma) eqn:Hcomma.
    - rewrite !fmap_cons. rewrite filter_cons_False by (by intros ?). done.
    - rewrite orb_false_r in Hc. rewrite fmap_cons.
      destruct (decide (Webapp.truthy (Webapp.trim isWhite piece) = true)) as [Ht|Ht].
      + by rewrite filter_cons_True in IH.
      + rewrite filter_cons_False in IH by done. rewrite filter_cons_False; [done|].
        intros Htr. apply Ht. clear -Hc Htr.
        unfold Webapp.truthy in *. apply negb_true_iff, String.eqb_neq in Htr.
        apply negb_true_iff, String.eqb_neq. intros Hempty. apply Htr.
        apply trim_empty. simpl. rewrite Hc. by apply trim_empty. }
  by rewrite Hnone.
Qed.

Lemma last_cons_default (v : string) vs d : List.last (v :: vs) d = List.last vs v.
Proof.
  revert v d. induction vs as [|v' vs IH]; intros v d; [done|].
  change (List.last (v :: v' :: vs) d) with (List.last (v' :: vs) d).
  by rewrite !IH.
Qed.

(** X23. The component keeps its state in step with its property: after
    mounting and after any sequence of new values, the groups in the state
    are the ids read from the current value. *)
Theorem component_state_follows_value
    (isWhite : Ascii.ascii -> bool) (value : string) (values : list string) :
  let c := rendered isWhite value values in
  Webapp.propsValue c = List.last values value
  /\ Webapp.stateGroups c = Webapp.initializeGroups isWhite (Webapp.propsValue c).
Proof.
  intros c. subst c. unfold rendered.
  assert (Hinv : forall c vs,
    Webapp.stateGroups c = Webapp.initializeGroups isWhite (Webapp.propsValue c) ->
    let c' := foldl (Webapp.update isWhite) c vs in
    Webapp.propsValue c' = List.last vs (Webapp.propsValue c)
    /\ Webapp.stateGroups c' = Webapp.initializeGroups isWhite (Webapp.propsValue c')).
  { intros c vs. revert c. induction vs as [|v vs IH]; intros c Hc; [done|].
    cbn [foldl]. destruct (IH (Webapp.update isWhite c v)) as [Hp Hs].
    - unfold Webapp.update. cbn [Webapp.stateGroups Webapp.propsValue].
      destruct (String.eqb_spec (Webapp.propsValue c) v) as [<-|]; done.
    - split; [|exact Hs]. rewrite Hp. cbn [Webapp.update Webapp.propsValue].
      symmetry. apply last_cons_default. }
  destruct (Hinv (Webapp.mount isWhite value) values eq_refl) as [Hp Hs].
  split; [exact Hp | exact Hs].
Qed.

(** X24. [handleChange] reports nothing when the list of groups is absent,
    when no [onChange] property is set or when the component has no id.
    Otherwise it reports, under the component's id, the ids of the selected
    groups joined with commas, skipping absent groups and empty ids; and when
    these ids contain no comma and are trimmed, the component reads exactly
    these ids back from the reported value. *)
Theorem selection_is_reported_and_read_back
    (isWhite : Ascii.ascii -> bool) (propsId : string)
    (selectedGroups : list (option Group)) :
  let ids := Webapp.selectedIds selectedGroups in
  Forall (fun id => contains Webapp.comma id = false /\ Webapp.trim isWhite id = id) ids ->
  Webapp.handleChange propsId true None = None
  /\ Webapp.handleChange propsId false (Some selectedGroups) = None
  /\ Webapp.handleChange "" true (Some selectedGroups) = None
  /\ (if Webapp.truthy propsId
      then Webapp.handleChange propsId true (Some selectedGroups)
           = Some (propsId, Webapp.join "," ids)
      else True)
  /\ Webapp.initializeGroups isWhite (Webapp.join "," ids) = ids.
Proof.
  intros ids Hclean. do 3 (split; [done|]). split.
  - unfold Webapp.handleChange. by destruct (Webapp.truthy propsId).
  - apply initializeGroups_join. apply Forall_forall. intros id Hin.
    rewrite Forall_forall in Hclean. destruct (Hclean id Hin) as [Hc Ht].
    split; [|done]. unfold ids, Webapp.selectedIds in Hin.
    apply list_elem_of_filter in Hin as [Hne _].
    unfold Webapp.truthy in Hne. by apply negb_true_iff, String.eqb_neq in Hne.
Qed.

(** The theorem applied to a selection with an absent group and a group
    without id. *)
Lemma selection_is_reported_and_read_back_witness :
  Webapp.selectedIds [Some theGroup; None; Some (mkGroup "" "n" "d"); Some (mkGroup "g2" "n" "d")]
  = ["g1"; "g2"]
  /\ Webapp.handleChange "ExcludedGroups" true
       (Some [Some theGroup; None; Some (mkGroup "" "n" "d"); Some (mkGroup "g2" "n" "d")])
     = Some ("ExcludedGroups", "g1,g2")
  /\ Webapp.initializeGroups API.isSpace "g1,g2" = ["g1"; "g2"].
Proof.
  assert (Hclean : Forall (fun id => contains Webapp.comma id = false
                                     /\ Webapp.trim API.isSpace id = id)
                     (Webapp.selectedIds
                        [Some theGroup; None; Some (mkGroup "" "n" "d");
                         Some (mkGroup "g2" "n" "d")]))
    by (by repeat constructor).
  destruct (selection_is_reported_and_read_back API.isSpace "ExcludedGroups" _ Hclean)
    as (_ & _ & _ & Hreport & Hback).
  split; [reflexivity|]. split; [exact Hreport | exact Hback].
Defined.

(** ** Fetching the groups that are not loaded *)

Lemma missingIds_nil st ids :
  Forall (fun id => is_Some (Webapp.groups st !! id)
                    \/ id ∈ Webapp.pendingGroupRequests st) ids ->
  Webapp.missingIds st ids = [].
Proof.
  unfold Webapp.missingIds. induction 1 as [|id ids Hid _ IH]; [done|].
  rewrite filter_cons_False; [done|]. intros [Hnone Hnot].
  destruct Hid as [[g Hg]|Hin]; [congruence | done].
Qed.

Lemma elem_of_missingIds st ids id :
  id ∈ Webapp.missingIds st ids
  <-> id ∈ ids /\ Webapp.groups st !! id = None
      /\ id ∉ Webapp.pendingGroupRequests st.
Proof. unfold Webapp.missingIds. rewrite list_elem_of_filter. tauto. Qed.

Lemma allFulfilled_Some fetched : Webapp.allFulfilled (Some <$> fetched) = Some fetched.
Proof.
  induction fetched as [|g rest IH]; [done|].
  rewrite fmap_cons. cbn [Webapp.allFulfilled]. by rewrite IH.
Qed.

Lemma allFulfilled_None answers : None ∈ answers -> Webapp.allFulfilled answers = None.
Proof.
  induction answers as [|[g|] rest IH]; [by intros ?%elem_of_nil| |done].
  intros [Heq|Hin]%elem_of_cons; [done|]. simpl. by rewrite IH.
Qed.

(** X25. When every requested id is loaded in the store or already pending,
    the thunk asks the server for nothing, changes nothing and returns no
    data; in particular so for an empty list of ids. *)
Theorem known_ids_are_not_requested
    (getGroup : nat -> string -> option Group) (st : Webapp.Store)
    (groupIds : list string) :
  Forall (fun id => is_Some (Webapp.groups st !! id)
                    \/ id ∈ Webapp.pendingGroupRequests st) groupIds ->
  Webapp.getMissingGroupsByIds getGroup st groupIds = (st, [], Webapp.Data [] false).
Proof.
  intros Hknown. unfold Webapp.getMissingGroupsByIds.
  by rewrite (missingIds_nil st groupIds Hknown).
Qed.

(** The theorem applied to a store that holds the group asked for. *)
Lemma known_ids_are_not_requested_witness :
  Forall (fun id => is_Some (({["g1" := theGroup]} : gmap string Group) !! id)
                    \/ id ∈ (∅ : gset string)) ["g1"]
  /\ Webapp.getMissingGroupsByIds (fun _ _ => None)
       {| Webapp.groups := {["g1" := theGroup]}; Webapp.pendingGroupRequests := ∅ |}
       ["g1"]
     = ({| Webapp.groups := {["g1" := theGroup]}; Webapp.pendingGroupRequests := ∅ |},
        [], Webapp.Data [] false).
Proof.
  assert (Hknown : Forall (fun id => is_Some (({["g1" := theGroup]} : gmap string Group) !! id)
                                     \/ id ∈ (∅ : gset string)) ["g1"]).
  { constructor; [|constructor]. left. by eexists. }
  split; [exact Hknown|].
  exact (known_ids_are_not_requested (fun _ _ => None)
           {| Webapp.groups := {["g1" := theGroup]}; Webapp.pendingGroupRequests := ∅ |}
           ["g1"] Hknown).
Defined.

(** X26. When some id is neither loaded nor pending and the server answers
    every request, the thunk asks for exactly these ids, in the order given
    (an id given twice is asked for twice), dispatches and returns the groups
    received, and leaves the set of pending ids as it found it. *)
Theorem fetched_groups_are_dispatched
    (getGroup : nat -> string -> option Group) (st : Webapp.Store)
    (groupIds : list string) (fetchedGroups : list Group) :
  let missing := Webapp.missingIds st groupIds in
  missing <> [] ->
  imap getGroup missing = Some <$> fetchedGroups ->
  Webapp.getMissingGroupsByIds getGroup st groupIds
  = (st, missing, Webapp.Data fetchedGroups true).
Proof.
  intros missing Hne Hall. unfold Webapp.getMissingGroupsByIds. fold missing.
  assert (Hlen : length fetchedGroups = length missing).
  { apply (f_equal length) in Hall. by rewrite length_imap, length_fmap in Hall. }
  destruct missing as [|id rest] eqn:Hm; [done|]. cbn [length Nat.eqb].
  rewrite Hall, allFulfilled_Some.
  destruct fetchedGroups as [|g gs]; [done|]. cbn [length Nat.ltb Nat.leb].
  f_equal. f_equal. destruct st as [gr pending]. f_equal.
  cbn [Webapp.pendingGroupRequests].
  assert (Hdisj : forall x, x ∈ id :: rest -> x ∉ pending).
  { intros x Hx. rewrite <- Hm in Hx. unfold missing in Hx.
    by apply elem_of_missingIds in Hx as (_ & _ & Hx). }
  apply set_eq. intros x. rewrite elem_of_difference, elem_of_union, elem_of_list_to_set.
  split; [intros [[?|?] ?]; done|]. intros Hx. split; [by left|].
  intros Hin. by apply (Hdisj x).
Qed.

(** The theorem applied to one id that is not loaded. *)
Lemma fetched_groups_are_dispatched_witness :
  Webapp.missingIds {| Webapp.groups := ∅; Webapp.pendingGroupRequests := ∅ |} ["g1"]
  = ["g1"]
  /\ Webapp.getMissingGroupsByIds (fun _ _ => Some theGroup)
       {| Webapp.groups := ∅; Webapp.pendingGroupRequests := ∅ |} ["g1"]
     = ({| Webapp.groups := ∅; Webapp.pendingGroupRequests := ∅ |},
        ["g1"], Webapp.Data [theGroup] true).
Proof.
  assert (Hm : Webapp.missingIds
                 {| Webapp.groups := ∅; Webapp.pendingGroupRequests := ∅ |} ["g1"]
               = ["g1"]) by (by vm_compute).
  split; [exact Hm|].
  pose proof (fetched_groups_are_dispatched (fun _ _ => Some theGroup)
                {| Webapp.groups := ∅; Webapp.pendingGroupRequests := ∅ |}
                ["g1"] [theGroup]) as Hrun.
  cbv zeta in Hrun. rewrite Hm in Hrun. apply Hrun; [discriminate | reflexivity].
Defined.

(** X27. When the server rejects one of the requests, the thunk throws, and
    every id it asked for stays in the set of pending ids: a later call for
    the same ids asks the server for nothing and returns no data, whatever
    the server would answer, although these groups are still not loaded. *)
Theorem rejected_ids_stay_pending
    (getGroup getGroup' : nat -> string -> option Group) (st : Webapp.Store)
    (groupIds : list string) :
  let missing := Webapp.missingIds st groupIds in
  let st' := {| Webapp.groups := Webapp.groups st;
                Webapp.pendingGroupRequests :=
                  Webapp.pendingGroupRequests st ∪ list_to_set missing |} in
  None ∈ imap getGroup missing ->
  Webapp.getMissingGroupsByIds getGroup st groupIds = (st', missing, Webapp.Thrown)
  /\ Webapp.getMissingGroupsByIds getGroup' st' groupIds = (st', [], Webapp.Data [] false)
  /\ Forall (fun id => Webapp.groups st' !! id = None) missing.
Proof.
  intros missing st' Hrej. split; [|split].
  - unfold Webapp.getMissingGroupsByIds. fold missing.
    destruct missing as [|id rest] eqn:Hm; [by apply elem_of_nil in Hrej|].
    cbn [length Nat.eqb]. by rewrite (allFulfilled_None _ Hrej).
  - unfold Webapp.getMissingGroupsByIds. rewrite missingIds_nil; [done|].
    apply Forall_forall. intros id Hin.
    destruct (Webapp.groups st !! id) as [g|] eqn:Hg; [left; by eexists|].
    right. cbn [st' Webapp.pendingGroupRequests].
    destruct (decide (id ∈ Webapp.pendingGroupRequests st)) as [Hp|Hp];
      [by apply elem_of_union_l|].
    apply elem_of_union_r, elem_of_list_to_set. by apply elem_of_missingIds.
  - apply Forall_forall. intros id Hin.
    by apply elem_of_missingIds in Hin as (_ & Hnone & _).
Qed.

(** The theorem applied to one id whose request is rejected. *)
Lemma rejected_ids_stay_pending_witness :
  None ∈ imap (fun _ _ => @None Group)
           (Webapp.missingIds
              {| Webapp.groups := ∅; Webapp.pendingGroupRequests := ∅ |} ["g1"])
  /\ Webapp.getMissingGroupsByIds (fun _ _ => Some theGroup)
       {| Webapp.groups := ∅;
          Webapp.pendingGroupRequests :=
            ∅ ∪ list_to_set
                  (Webapp.missingIds
                     {| Webapp.groups := ∅; Webapp.pendingGroupRequests := ∅ |} ["g1"]) |}
       ["g1"]
     = ({| Webapp.groups := ∅;
           Webapp.pendingGroupRequests :=
             ∅ ∪ list_to_set
                   (Webapp.missingIds
                      {| Webapp.groups := ∅; Webapp.pendingGroupRequests := ∅ |} ["g1"]) |},
        [], Webapp.Data [] false).
Proof.
  assert (Hrej : None ∈ imap (fun _ _ => @None Group)
                   (Webapp.missingIds
                      {| Webapp.groups := ∅; Webapp.pendingGroupRequests := ∅ |} ["g1"])).
  { replace (Webapp.missingIds _ ["g1"]) with ["g1"] by (by vm_compute). by left. }
  split; [exact Hrej|].
  exact (proj1 (proj2 (rejected_ids_stay_pending (fun _ _ => None)
                         (fun _ _ => Some theGroup)
                         {| Webapp.groups := ∅; Webapp.pendingGroupRequests := ∅ |}
                         ["g1"] Hrej))).
Defined.
